(** * ELAYA bot: request queue, group admission, relevance gate, chunking

    A shallow embedding of the algorithmic core of [bot.py] and of
    [RAGManager.search] from [rag_manager.py], followed by the properties
    the specification states about them (Part II) and by further
    properties of the code: the counters of the queue, the handlers,
    escaping, [get_stats] and [load_document] (Part III).

    Conventions of the embedding:
    - a Python [str] is the list of its Unicode code points ([pystr]);
    - a Python [int] is a [Z];
    - instants ([datetime.now()]) and durations in seconds are exact
      rationals ([Q]); the rounding of Python floats is not modelled;
    - a score returned by the vector store is a [pyfloat]: a rational, an
      infinity or NaN, with the IEEE comparison;
    - [str.lower] and the character test of [re.IGNORECASE] are parameters
      of the functions that use them ([lower], [ci_char]); an instance for
      the ASCII range is given for the worked examples;
    - a loop that Python may run for ever takes a fuel argument and returns
      [None] when the fuel is exhausted. *)

From Stdlib Require Import List ZArith NArith QArith Bool Lia String Ascii.
Import ListNotations.

Set Implicit Arguments.
Set Warnings "-register-all".

(* ================================================================== *)
(** * Part I: definitions                                               *)
(* ================================================================== *)

(** ** Python strings *)

Definition pystr := list N.

(** An ASCII literal as a Python string. *)
Fixpoint u (s : string) : pystr :=
  match s with
  | EmptyString => []
  | String c rest => N_of_ascii c :: u rest
  end.

Definition len (s : pystr) : Z := Z.of_nat (List.length s).

(** [bool(s)] for a string: non-empty. *)
Definition truthy (s : pystr) : bool :=
  match s with [] => false | _ :: _ => true end.

Fixpoint str_eqb (a b : pystr) : bool :=
  match a, b with
  | [], [] => true
  | x :: a', y :: b' => N.eqb x y && str_eqb a' b'
  | _, _ => false
  end.

(** [Py_UNICODE_ISSPACE]: the characters removed by [str.strip()]. *)
Definition is_space (c : N) : bool :=
  ((9 <=? c) && (c <=? 13) || (28 <=? c) && (c <=? 32)
   || (c =? 133) || (c =? 160) || (c =? 5760)
   || (8192 <=? c) && (c <=? 8202)
   || (c =? 8232) || (c =? 8233) || (c =? 8239) || (c =? 8287)
   || (c =? 12288))%N.

Fixpoint lstrip (s : pystr) : pystr :=
  match s with
  | [] => []
  | c :: rest => if is_space c then lstrip rest else s
  end.

Definition rstrip (s : pystr) : pystr := rev (lstrip (rev s)).

Definition strip (s : pystr) : pystr := rstrip (lstrip s).

(** [s.startswith(p)]. *)
Fixpoint startswith (s p : pystr) : bool :=
  match p, s with
  | [], _ => true
  | x :: p', y :: s' => N.eqb x y && startswith s' p'
  | _ :: _, [] => false
  end.

(** [s.endswith(p)]. *)
Definition endswith (s p : pystr) : bool := startswith (rev s) (rev p).

(** Index normalisation shared by slicing and [rfind]: a negative index
    counts from the end, and the result is clipped to [0 .. n]. *)
Definition clamp_index (n i : Z) : Z :=
  if (i <? 0)%Z then Z.max (i + n) 0 else Z.min i n.

(** [s[a:b]]. *)
Definition slice (s : pystr) (a b : Z) : pystr :=
  let a' := clamp_index (len s) a in
  let b' := clamp_index (len s) b in
  firstn (Z.to_nat (b' - a')) (skipn (Z.to_nat a') s).

(** [s[:i]] and [s[i:]]. *)
Definition slice_to (s : pystr) (i : Z) : pystr :=
  firstn (Z.to_nat (clamp_index (len s) i)) s.

Definition slice_from (s : pystr) (i : Z) : pystr :=
  skipn (Z.to_nat (clamp_index (len s) i)) s.

(** Candidates [lo + n - 1], ..., [lo], highest first. *)
Fixpoint rfind_scan (s sub : pystr) (lo n : nat) : Z :=
  match n with
  | O => (-1)%Z
  | S k =>
      if startswith (skipn (lo + k) s) sub then Z.of_nat (lo + k)
      else rfind_scan s sub lo k
  end.

(** [s.rfind(sub, start, end)]: the highest index in the window at which
    [sub] occurs, or [-1]. *)
Definition rfind (s sub : pystr) (start end_ : Z) : Z :=
  let a := clamp_index (len s) start in
  let b := clamp_index (len s) end_ in
  if (b - a <? len sub)%Z then (-1)%Z
  else rfind_scan s sub (Z.to_nat a) (Z.to_nat (b - a - len sub + 1)).

(** ** Telegram objects, as far as the bot reads them *)

Record User := mkUser {
  user_id : Z;
  username : option pystr
}.

Record MessageEntity := mkEntity {
  e_type : pystr;
  e_offset : Z;
  e_length : Z
}.

Inductive Message := mkMessage {
  text : option pystr;
  entities : option (list MessageEntity);
  reply_to_message : option Message;
  from_user : option User;
  chat_type : pystr
}.

(** ** The request queue ([class RequestQueue]) *)

Record request_data := mkRequest {
  message : Message;
  model : pystr;
  is_deep : bool;
  queued_at : option Q
}.

Record queue_stats := mkStats {
  total_processed : Z;
  total_queued : Z;
  total_rejected : Z;
  avg_wait_time : Q
}.

Record RequestQueue := mkQueue {
  max_concurrent : Z;
  max_queue_size : Z;
  active_requests : Z;
  queue : list request_data;
  stats : queue_stats
}.

(** [__init__]. *)
Definition init (max_concurrent max_queue_size : Z) : RequestQueue :=
  mkQueue max_concurrent max_queue_size 0 [] (mkStats 0 0 0 0).

Definition can_process (self : RequestQueue) : bool :=
  (active_requests self <? max_concurrent self)%Z.

(** [request_data['queued_at'] = now].  The handlers build a new dict
    for every call of [add_to_queue], so no two entries of the wait list
    share a stamp by aliasing. *)
Definition stamp (r : request_data) (now : Q) : request_data :=
  mkRequest (message r) (model r) (is_deep r) (Some now).

(** [add_to_queue]; [now] is the value of [datetime.now()]. *)
Definition add_to_queue (self : RequestQueue) (r : request_data) (now : Q)
  : RequestQueue * Z :=
  let st := stats self in
  if (max_queue_size self <=? Z.of_nat (List.length (queue self)))%Z then
    (mkQueue (max_concurrent self) (max_queue_size self)
             (active_requests self) (queue self)
             (mkStats (total_processed st) (total_queued st)
                      (total_rejected st + 1) (avg_wait_time st)),
     (-1)%Z)
  else
    let queue' := queue self ++ [stamp r now] in
    (mkQueue (max_concurrent self) (max_queue_size self)
             (active_requests self) queue'
             (mkStats (total_processed st) (total_queued st + 1)
                      (total_rejected st) (avg_wait_time st)),
     Z.of_nat (List.length queue')).

Definition start_processing (self : RequestQueue) : RequestQueue :=
  mkQueue (max_concurrent self) (max_queue_size self)
          (active_requests self + 1) (queue self) (stats self).

Definition finish_processing (self : RequestQueue) : RequestQueue :=
  let st := stats self in
  mkQueue (max_concurrent self) (max_queue_size self)
          (Z.max 0 (active_requests self - 1)) (queue self)
          (mkStats (total_processed st + 1) (total_queued st)
                   (total_rejected st) (avg_wait_time st)).

(** What a call of [get_next_request] hands back: the request or [None],
    or the [KeyError] of [request['queued_at']] on an entry without a
    stamp (raised after [popleft]). *)
Inductive popped :=
| Returned (r : option request_data)
| KeyError.

Definition get_next_request (self : RequestQueue) (now : Q)
  : RequestQueue * popped :=
  match queue self with
  | [] => (self, Returned None)
  | request :: rest =>
      match queued_at request with
      | None =>
          (mkQueue (max_concurrent self) (max_queue_size self)
                   (active_requests self) rest (stats self), KeyError)
      | Some t =>
          let wait_time := (now - t)%Q in
          let st := stats self in
          let total := total_processed st in
          let avg' :=
            if (0 <? total)%Z then
              ((avg_wait_time st * inject_Z total + wait_time)
               / inject_Z (total + 1))%Q
            else wait_time in
          (mkQueue (max_concurrent self) (max_queue_size self)
                   (active_requests self) rest
                   (mkStats (total_processed st) (total_queued st)
                            (total_rejected st) avg'),
           Returned (Some request))
      end
  end.

(** Calls on the queue, and what each one answers. *)
Inductive op :=
| Enqueue (r : request_data) (now : Q)
| Dequeue (now : Q)
| Begin
| End_.

Inductive answer :=
| Position (p : Z)
| Popped (p : popped)
| Done.

Definition step (self : RequestQueue) (o : op) : RequestQueue * answer :=
  match o with
  | Enqueue r now =>
      let (self', p) := add_to_queue self r now in (self', Position p)
  | Dequeue now =>
      let (self', p) := get_next_request self now in (self', Popped p)
  | Begin => (start_processing self, Done)
  | End_ => (finish_processing self, Done)
  end.

(** A run: the final state and the calls with their answers, in order. *)
Fixpoint run (self : RequestQueue) (ops : list op)
  : RequestQueue * list (op * answer) :=
  match ops with
  | [] => (self, [])
  | o :: rest =>
      let (self1, a) := step self o in
      let (self2, tr) := run self1 rest in
      (self2, (o, a) :: tr)
  end.

Definition exec (self : RequestQueue) (ops : list op) : RequestQueue :=
  fst (run self ops).

(** The entries a run put into the wait list, as stored. *)
Fixpoint accepted (tr : list (op * answer)) : list request_data :=
  match tr with
  | [] => []
  | (Enqueue r now, Position p) :: rest =>
      if (p =? -1)%Z then accepted rest else stamp r now :: accepted rest
  | _ :: rest => accepted rest
  end.

(** The entries a run handed out, in the order of the calls. *)
Fixpoint handed_out (tr : list (op * answer)) : list request_data :=
  match tr with
  | [] => []
  | (_, Popped (Returned (Some r))) :: rest => r :: handed_out rest
  | _ :: rest => handed_out rest
  end.

Fixpoint raised (tr : list (op * answer)) : bool :=
  match tr with
  | [] => false
  | (_, Popped KeyError) :: _ => true
  | _ :: rest => raised rest
  end.

(** Every [Begin] of the run is issued in a state where [can_process]
    answers [True] (the discipline of the handlers and of
    [queue_processor]). *)
Fixpoint guarded (self : RequestQueue) (ops : list op) : bool :=
  match ops with
  | [] => true
  | o :: rest =>
      match o with
      | Begin => can_process self
      | _ => true
      end && guarded (fst (step self o)) rest
  end.

(** Runs made of [Begin] and [End_] only. *)
Definition begin_end_only (ops : list op) : bool :=
  forallb (fun o => match o with Begin | End_ => true | _ => false end) ops.

(** ** Answering in groups *)

Section Groups.

(** [str.lower]. *)
Variable lower : pystr -> pystr.

(** [bot._me] when the attribute exists and is set, else [None]. *)
Variable me : option User.

Fixpoint mentioned_loop (t : pystr) (es : list MessageEntity) : bool :=
  match es with
  | [] => false
  | entity :: rest =>
      if str_eqb (e_type entity) (u "mention") then
        let mention :=
          slice t (e_offset entity) (e_offset entity + e_length entity) in
        let bot_username :=
          match me with Some b => username b | None => None end in
        match bot_username with
        | Some bu =>
            if truthy bu && str_eqb (lower mention) (u "@" ++ lower bu)
            then true
            else mentioned_loop t rest
        | None => mentioned_loop t rest
        end
      else mentioned_loop t rest
  end.

Definition is_bot_mentioned (m : Message) : bool :=
  match text m with
  | None => false
  | Some t =>
      if truthy t then
        match entities m with
        | None => false
        | Some es => mentioned_loop t es
        end
      else false
  end.

Definition is_reply_to_bot (m : Message) : bool :=
  match reply_to_message m with
  | None => false
  | Some replied =>
      match from_user replied with
      | None => false
      | Some author =>
          let bot_id :=
            match me with Some b => Some (user_id b) | None => None end in
          match bot_id with
          | Some i => negb (i =? 0)%Z && (user_id author =? i)%Z
          | None => false
          end
      end
  end.

(** The loop over the entities in [is_question_in_air]: [false] as soon
    as a mention is not the bot's. *)
Fixpoint foreign_loop (t : pystr) (es : list MessageEntity) : bool :=
  match es with
  | [] => true
  | entity :: rest =>
      if str_eqb (e_type entity) (u "mention") then
        let mention :=
          slice t (e_offset entity) (e_offset entity + e_length entity) in
        let bot_username :=
          match me with Some b => username b | None => Some [] end in
        match bot_username with
        | Some bu =>
            if truthy bu
               && negb (str_eqb (lower mention) (u "@" ++ lower bu))
            then false
            else foreign_loop t rest
        | None => foreign_loop t rest
        end
      else foreign_loop t rest
  end.

Definition is_question_in_air (m : Message) : bool :=
  match text m with
  | None => false
  | Some t0 =>
      if truthy t0 then
        let t := strip t0 in
        if negb (endswith t (u "?")) then false
        else
          if match reply_to_message m with
             | Some _ => negb (is_reply_to_bot m)
             | None => false
             end
          then false
          else
            match entities m with
            | None => true
            | Some es => foreign_loop t0 es
            end
      else false
  end.

Definition should_respond_in_group (GROUP_RESPONSE_MODE : pystr)
           (m : Message) : bool :=
  if str_eqb GROUP_RESPONSE_MODE (u "all") then true
  else if str_eqb GROUP_RESPONSE_MODE (u "mention_only") then
    is_bot_mentioned m || is_reply_to_bot m
  else if is_bot_mentioned m then true
  else if is_reply_to_bot m then true
  else if is_question_in_air m then true
  else false.

End Groups.

(** ** Removing the bot's mention *)

Section Mention.

(** The character test of a literal under [re.IGNORECASE]: pattern
    character first, subject character second. *)
Variable ci_char : N -> N -> bool.

(** The literal [pat] matches at the start of [s]. *)
Fixpoint match_here (pat s : pystr) : bool :=
  match pat, s with
  | [], _ => true
  | p :: pat', c :: s' => ci_char p c && match_here pat' s'
  | _ :: _, [] => false
  end.

(** [pattern.sub("", s)] for a non-empty literal: the scan goes left to
    right, and a match at the current position drops [length pat]
    characters; [skip] counts the characters of a match still to drop. *)
Fixpoint sub_scan (pat : pystr) (skip : nat) (s : pystr) : pystr :=
  match s with
  | [] => []
  | c :: rest =>
      match skip with
      | S k => sub_scan pat k rest
      | O =>
          if match_here pat s then sub_scan pat (List.length pat - 1) rest
          else c :: sub_scan pat 0 rest
      end
  end.

Definition remove_bot_mention (text : pystr) (bot_username : option pystr)
  : pystr :=
  match bot_username with
  | None => text
  | Some bu =>
      if negb (truthy bu) then text
      else strip (sub_scan (u "@" ++ bu) 0 text)
  end.

End Mention.

(** Case rules on the ASCII range, for the worked examples. *)
Definition ascii_tolower (c : N) : N :=
  if ((65 <=? c) && (c <=? 90))%N then (c + 32)%N else c.

Definition ascii_lower (s : pystr) : pystr := map ascii_tolower s.

Definition ascii_ci (p c : N) : bool :=
  (ascii_tolower p =? ascii_tolower c)%N.

(** ** Retrieval and the relevance gate *)

Inductive pyfloat :=
| Fin (q : Q)
| PosInf
| NegInf
| NaN.

(** [a < b] on floats. *)
Definition flt (a b : pyfloat) : bool :=
  match a, b with
  | NaN, _ | _, NaN => false
  | Fin x, Fin y => negb (Qle_bool y x)
  | Fin _, PosInf => true
  | Fin _, NegInf => false
  | NegInf, NegInf => false
  | NegInf, _ => true
  | PosInf, _ => false
  end.

(** [a >= b] on floats. *)
Definition fge (a b : pyfloat) : bool :=
  match a, b with
  | NaN, _ | _, NaN => false
  | Fin x, Fin y => Qle_bool y x
  | Fin _, PosInf => false
  | Fin _, NegInf => true
  | NegInf, NegInf => true
  | NegInf, _ => false
  | PosInf, _ => true
  end.

Record Document := mkDocument {
  page_content : pystr;
  doc_metadata : list (pystr * pystr)
}.

(** One formatted result of [RAGManager.search]. *)
Record found := mkFound {
  content : pystr;
  source : pystr;
  score : pyfloat;
  metadata : list (pystr * pystr)
}.

(** A call that either returns or raises. *)
Inductive outcome (A : Type) :=
| Ok (a : A)
| Raises.
Arguments Raises {A}.

(** [similarity_search_with_score(query, k=k)] of the vector store. *)
Definition VectorStore := pystr -> Z -> outcome (list (Document * pyfloat)).

Record RAGManager := mkRAG {
  is_initialized : bool;
  vectorstore : option VectorStore
}.

(** [dict.get(key, default)]. *)
Fixpoint dict_get (d : list (pystr * pystr)) (key default : pystr) : pystr :=
  match d with
  | [] => default
  | (k, v) :: rest => if str_eqb k key then v else dict_get rest key default
  end.

Definition format_result (r : Document * pyfloat) : found :=
  let (doc, score) := r in
  mkFound (page_content doc)
          (dict_get (doc_metadata doc) (u "source_file") (u "Unknown"))
          score
          (doc_metadata doc).

Definition search (self : RAGManager) (query : pystr) (k : Z) : list found :=
  if negb (is_initialized self) then []
  else
    match vectorstore self with
    | None => []
    | Some store =>
        match store query k with
        | Ok results => map format_result results
        | Raises => []
        end
    end.

Definition RAG_RELEVANCE_THRESHOLD : pyfloat := Fin (3 # 2).
Definition RAG_TOP_K : Z := 5.

(** The retrieval block of [process_message]: the pair
    [(use_rag, relevant_docs)] it leaves behind. *)
Definition rag_block (RAG_ENABLED RAG_ALWAYS_SEARCH : bool)
           (rag_manager : RAGManager) (user_text : pystr)
  : bool * list found :=
  if RAG_ENABLED && RAG_ALWAYS_SEARCH then
    let relevant_docs := search rag_manager user_text RAG_TOP_K in
    match relevant_docs with
    | [] => (false, relevant_docs)
    | best :: _ =>
        if flt (score best) RAG_RELEVANCE_THRESHOLD
        then (true, relevant_docs)
        else (false, relevant_docs)
    end
  else (false, []).

(** The backend call [process_message] makes next. *)
Inductive ollama_call :=
| call_ollama_with_context (model prompt : pystr) (context_docs : list found)
| call_ollama_stream (model user_text : pystr).

Definition choose_call (RAG_ENABLED RAG_ALWAYS_SEARCH : bool)
           (rag_manager : RAGManager) (model user_text : pystr)
  : ollama_call :=
  let (use_rag, relevant_docs) :=
    rag_block RAG_ENABLED RAG_ALWAYS_SEARCH rag_manager user_text in
  if use_rag then call_ollama_with_context model user_text relevant_docs
  else call_ollama_stream model user_text.

(** [context_parts] of [call_ollama_with_context]: one numbered part per
    document, carrying its source and its content. *)
Fixpoint context_parts (i : Z) (context_docs : list found)
  : list (Z * pystr * pystr) :=
  match context_docs with
  | [] => []
  | doc :: rest => (i, source doc, content doc) :: context_parts (i + 1) rest
  end.

(** ** Splitting a long reply *)

Definition MAX_TELEGRAM_LENGTH : Z := 4096.

(** The body of the [while] loop up to the choice of [split_index]. *)
Definition split_index (text : pystr) (max_length : Z) : Z :=
  let i1 := rfind text [10; 10]%N 0 max_length in
  let i2 := if (i1 =? -1)%Z then rfind text (u ". ") 0 max_length else i1 in
  let i3 := if (i2 =? -1)%Z then rfind text (u " ") 0 max_length else i2 in
  if (i3 =? -1)%Z || (i3 =? 0)%Z then max_length else i3.

(** The [while] loop and what follows it. *)
Fixpoint split_loop (fuel : nat) (text : pystr) (max_length : Z)
         (chunks : list pystr) : option (list pystr) :=
  if (max_length <? len text)%Z then
    match fuel with
    | O => None
    | S fuel' =>
        let i := split_index text max_length in
        split_loop fuel' (strip (slice_from text i)) max_length
                   (chunks ++ [strip (slice_to text i)])
    end
  else Some (if truthy text then chunks ++ [text] else chunks).

Definition split_text (fuel : nat) (text : pystr) (max_length : Z)
  : option (list pystr) :=
  if negb (truthy text) then Some [ [] ]
  else split_loop fuel text max_length [].

(** Separators and chunks put back together:
    [seps0 ++ c1 ++ seps1 ++ ... ++ cn ++ sepsn]. *)
Fixpoint weave (seps chunks : list pystr) : pystr :=
  match seps, chunks with
  | sep :: seps', c :: chunks' => sep ++ c ++ weave seps' chunks'
  | sep :: _, [] => sep
  | [], _ => []
  end.

Definition all_space (s : pystr) : bool := forallb is_space s.

Definition visible (s : pystr) : pystr :=
  filter (fun c => negb (is_space c)) s.

(** ** Vocabulary of the statements, and sample data *)

(** [len(self.queue)]. *)
Definition waiting (self : RequestQueue) : Z :=
  Z.of_nat (List.length (queue self)).

(** The entry carries its arrival time. *)
Definition is_stamped (r : request_data) : bool :=
  match queued_at r with Some _ => true | None => false end.

Definition sample_message : Message :=
  mkMessage (Some (u "How are you?")) None None
            (Some (mkUser 7 (Some (u "alice")))) (u "group").

Definition sample_request : request_data :=
  mkRequest sample_message (u "qwen2.5:7b-instruct-q4_K_M") false None.

(** The queue of the bot ([max_concurrent = 1], [max_queue_size = 10])
    after ten requests were accepted. *)
Definition full_queue : RequestQueue :=
  exec (init 1 10) (repeat (Enqueue sample_request 0) 10).

(** The entities of a message, [None] read as no entity. *)
Definition entity_list (m : Message) : list MessageEntity :=
  match entities m with Some es => es | None => [] end.

(** [text[entity.offset : entity.offset + entity.length]]: what the code
    takes for the text of an entity, a slice by code points. *)
Definition span (t : pystr) (e : MessageEntity) : pystr :=
  slice t (e_offset e) (e_offset e + e_length e).

(** The span of a mention entity is [@bot_name], case aside. *)
Definition names_bot (lower : pystr -> pystr) (bot_name t : pystr)
           (e : MessageEntity) : Prop :=
  lower (span t e) = u "@" ++ lower bot_name.

(** (1) some mention span is the bot's handle. *)
Definition direct_mention (lower : pystr -> pystr) (bot_name : pystr)
           (m : Message) (t : pystr) : Prop :=
  exists e, In e (entity_list m) /\ e_type e = u "mention" /\
            names_bot lower bot_name t e.

(** (2) the message answers a message written by the bot. *)
Definition reply_to (bot_id : Z) (m : Message) : Prop :=
  exists replied author,
    reply_to_message m = Some replied /\
    from_user replied = Some author /\
    user_id author = bot_id.

(** (3) a question, not an answer to somebody else, naming nobody else. *)
Definition untargeted_question (lower : pystr -> pystr) (bot_name : pystr)
           (bot_id : Z) (m : Message) (t : pystr) : Prop :=
  endswith (strip t) (u "?") = true /\
  (reply_to_message m = None \/ reply_to bot_id m) /\
  (forall e, In e (entity_list m) -> e_type e = u "mention" ->
             names_bot lower bot_name t e).

(** The transport counts the offset and the length of an entity in
    UTF-16 code units: a character outside the Basic Multilingual Plane
    counts for two. *)
Definition utf16_width (c : N) : Z := if (65536 <=? c)%N then 2 else 1.

(** The index, in code points, of the character that starts [units] code
    units into [t]. *)
Fixpoint utf16_to_index (t : pystr) (units : Z) : nat :=
  match t with
  | [] => O
  | c :: rest =>
      if (units <=? 0)%Z then O
      else S (utf16_to_index rest (units - utf16_width c))
  end.

(** The text the transport marks with an entity. *)
Definition transport_span (t : pystr) (e : MessageEntity) : pystr :=
  let i := utf16_to_index t (e_offset e) in
  let j := utf16_to_index t (e_offset e + e_length e) in
  firstn (j - i) (skipn i t).

(** No character of the text lies outside the Basic Multilingual Plane. *)
Definition bmp_text (t : pystr) : bool := forallb (fun c => (c <? 65536)%N) t.

(** Offsets and lengths as the transport sends them: not negative. *)
Definition entities_in_range (m : Message) : Prop :=
  forall e, In e (entity_list m) ->
            (0 <= e_offset e)%Z /\ (0 <= e_length e)%Z.

(** The text marked by the entity is [@bot_name], case aside. *)
Definition marks_bot (lower : pystr -> pystr) (bot_name t : pystr)
           (e : MessageEntity) : Prop :=
  lower (transport_span t e) = u "@" ++ lower bot_name.

(** (1), (3) with the text of an entity read as the transport marks it. *)
Definition marked_mention (lower : pystr -> pystr) (bot_name : pystr)
           (m : Message) (t : pystr) : Prop :=
  exists e, In e (entity_list m) /\ e_type e = u "mention" /\
            marks_bot lower bot_name t e.

Definition marked_question (lower : pystr -> pystr) (bot_name : pystr)
           (bot_id : Z) (m : Message) (t : pystr) : Prop :=
  endswith (strip t) (u "?") = true /\
  (reply_to_message m = None \/ reply_to bot_id m) /\
  (forall e, In e (entity_list m) -> e_type e = u "mention" ->
             marks_bot lower bot_name t e).

(** A question to the bot that starts with an emoji, U+1F600: the
    mention entity sits at UTF-16 offset 3. *)
Definition astral_mention_text : pystr :=
  128512%N :: u " @elayabot what time is it?".

Definition astral_mention : Message :=
  mkMessage (Some astral_mention_text) (Some [mkEntity (u "mention") 3 9])
            None (Some (mkUser 7 (Some (u "alice")))) (u "supergroup").

(** The bot does not know its username: [bot._me] is unset, or its
    [username] is [None] or empty. *)
Definition username_unknown (me : option User) : Prop :=
  match me with
  | None => True
  | Some b => username b = None \/ username b = Some []
  end.

(** The bot's identity once [get_me] has answered. *)
Definition known_bot (bot_id : Z) (bot_name : pystr) : option User :=
  Some (mkUser bot_id (Some bot_name)).

Definition elaya : option User := Some (mkUser 42 (Some (u "elayabot"))).

Definition group_message (t : string) (es : list MessageEntity)
           (replied : option Message) : Message :=
  mkMessage (Some (u t)) (Some es) replied
            (Some (mkUser 7 (Some (u "alice")))) (u "supergroup").



(** A vector store with ten passages; the best one has the given score. *)
Definition ten_passages (best : Q) : VectorStore :=
  fun _ _ =>
    Ok (map (fun i => (mkDocument (u "passage")
                                  [(u "source_file", u "book.txt")],
                       Fin (best + (Z.of_nat i # 10))%Q))
            (seq 0 10)).

(** A vector store that fails. *)
Definition broken_store : VectorStore := fun _ _ => Raises.

(** ** Further definitions: escaping, the text of a request, statistics,
       loading, the handlers *)

(** The scan of [s.replace(old, new)] for a non-empty [old]; [skip]
    counts the characters of an occurrence still to drop. *)
Fixpoint replace_scan (old new : pystr) (skip : nat) (s : pystr) : pystr :=
  match s with
  | [] => []
  | c :: rest =>
      match skip with
      | S k => replace_scan old new k rest
      | O =>
          if startswith s old
          then new ++ replace_scan old new (List.length old - 1) rest
          else c :: replace_scan old new 0 rest
      end
  end.

(** [s.replace(old, new)]; an empty [old] matches before every character
    and at the end. *)
Definition replace (s old new : pystr) : pystr :=
  match old with
  | [] => new ++ flat_map (fun c => c :: new) s
  | _ :: _ => replace_scan old new 0 s
  end.

Definition escape_html (text : pystr) : pystr :=
  if negb (truthy text) then []
  else replace (replace (replace text (u "&") (u "&amp;"))
                        (u "<") (u "&lt;"))
               (u ">") (u "&gt;").

(** The head of [process_message]: the text the request is made of, or
    [None] when the bot asks for a question instead. *)
Definition request_text (ci_char : N -> N -> bool) (me : option User)
           (message_text : pystr) : option pystr :=
  let user_text := strip message_text in
  let user_text :=
    match me with
    | Some b => remove_bot_mention ci_char user_text (username b)
    | None => user_text
    end in
  if negb (truthy user_text) then None else Some user_text.

(** [d.get(key, default)] and [d[key] = v] on a dict kept in insertion
    order. *)
Fixpoint dict_lookup {V : Type} (d : list (pystr * V)) (key : pystr)
         (default : V) : V :=
  match d with
  | [] => default
  | (k, v) :: rest =>
      if str_eqb k key then v else dict_lookup rest key default
  end.

Fixpoint dict_store {V : Type} (d : list (pystr * V)) (key : pystr) (v : V)
  : list (pystr * V) :=
  match d with
  | [] => [(key, v)]
  | (k, w) :: rest =>
      if str_eqb k key then (k, v) :: rest
      else (k, w) :: dict_store rest key v
  end.

(** What [vectorstore.get()] answers: the ids and, in step with them, the
    metadata of each record, [None] for a record stored without any. *)
Record collection := mkCollection {
  ids : list pystr;
  metadatas : list (option (list (pystr * pystr)))
}.

(** A call that returns or raises with a message. *)
Inductive attempt (A : Type) :=
| Fine (a : A)
| Failed (msg : pystr).
Arguments Failed {A}.

Record stats_report := mkReport {
  total_chunks : Z;
  total_sources : Z;
  sources : list (pystr * Z);
  status : pystr;
  error : option pystr
}.

(** One round of the loop over [data['metadatas']]. *)
Definition tally (sources : list (pystr * Z)) (metadata : list (pystr * pystr))
  : list (pystr * Z) :=
  let source := dict_get metadata (u "source_file") (u "Unknown") in
  dict_store sources source (dict_lookup sources source 0%Z + 1)%Z.

(** The loop over [data['metadatas']]: [None] when [metadata.get]
    raises, which it does on a record whose metadata is [None]. *)
Fixpoint tally_all (sources : list (pystr * Z))
         (ms : list (option (list (pystr * pystr))))
  : option (list (pystr * Z)) :=
  match ms with
  | [] => Some sources
  | None :: _ => None
  | Some metadata :: rest => tally_all (tally sources metadata) rest
  end.

(** [str(e)] for the [AttributeError] of [None.get]. *)
Definition NONE_HAS_NO_GET : pystr :=
  u "'NoneType' object has no attribute 'get'".

(** [get_stats]; [get] is the outcome of [self.vectorstore.get()]. *)
Definition get_stats (self : RAGManager) (get : attempt collection)
  : stats_report :=
  if negb (is_initialized self) then
    mkReport 0 0 [] (u "not_initialized") None
  else
    match vectorstore self with
    | None => mkReport 0 0 [] (u "vectorstore_error") None
    | Some _ =>
        match get with
        | Fine data =>
            let doc_count := Z.of_nat (List.length (ids data)) in
            match tally_all [] (metadatas data) with
            | Some sources =>
                mkReport doc_count (Z.of_nat (List.length sources)) sources
                         (u "ready") None
            | None => mkReport 0 0 [] (u "error") (Some NONE_HAS_NO_GET)
            end
        | Failed msg => mkReport 0 0 [] (u "error") (Some msg)
        end
    end.

(** The two assignments to [chunk.metadata] in [load_document]. *)
Definition tag_chunk (name ext : pystr) (chunk : Document) : Document :=
  mkDocument (page_content chunk)
             (dict_store (dict_store (doc_metadata chunk)
                                     (u "source_file") name)
                         (u "file_type") ext).

(** [Path.suffix] for a path whose last component is [name]: the name
    from its last dot on, when that dot is neither the first nor the
    last character of the name; else the empty string. *)
Definition path_suffix (name : pystr) : pystr :=
  let i := rfind name (u ".") 0 (len name) in
  if (0 <? i)%Z && (i <? len name - 1)%Z then slice_from name i else [].

(** [load_document].  [file_exists] and [name] are what [Path.exists()]
    and [Path.name] answer for the path; [load_and_split] stands for the
    loader picked by the extension followed by the text splitter. *)
Definition load_document (lower : pystr -> pystr) (RAG_AVAILABLE : bool)
           (file_exists : bool) (name : pystr)
           (load_and_split : pystr -> outcome (list Document))
  : list Document :=
  if negb RAG_AVAILABLE then []
  else if negb file_exists then []
  else
    let ext := lower (path_suffix name) in
    if str_eqb ext (u ".pdf") || str_eqb ext (u ".docx")
       || str_eqb ext (u ".txt")
    then
      match load_and_split ext with
      | Ok chunks => map (tag_chunk name ext) chunks
      | Raises => []
      end
    else [].

(** [is_group_chat]. *)
Definition is_group_chat (m : Message) : bool :=
  str_eqb (chat_type m) (u "group") || str_eqb (chat_type m) (u "supergroup").

(** What [handle_default] does with a message, up to the point where
    [process_message] starts or the request waits. *)
Inductive reaction :=
| NoReaction
| UnknownCommand
| ClearKnowledgeBase
| AttributeError
| Immediate (model : pystr)
| QueuedAt (position : Z)
| QueueFull.

(** The phrase that confirms [/rag_clear]: "да, удалить". *)
Definition CONFIRM_CLEAR : pystr :=
  [1076; 1072; 44; 32; 1091; 1076; 1072; 1083; 1080; 1090; 1100]%N.

(** [handle_default] up to [process_message]. [AttributeError] is the
    failure of [message.from_user.id] on a message without a sender. *)
Definition handle_default (lower : pystr -> pystr) (me : option User)
           (GROUP_RESPONSE_MODE : pystr) (RAG_ENABLED : bool)
           (DEFAULT_MODEL : pystr)
           (request_queue : RequestQueue) (m : Message) (now : Q)
  : RequestQueue * reaction :=
  match text m with
  | None => (request_queue, NoReaction)
  | Some t =>
      if negb (truthy t) then (request_queue, NoReaction)
      else if startswith t (u "/") then (request_queue, UnknownCommand)
      else if str_eqb (lower t) CONFIRM_CLEAR && RAG_ENABLED
      then (request_queue, ClearKnowledgeBase)
      else if is_group_chat m
              && negb (should_respond_in_group lower me GROUP_RESPONSE_MODE m)
      then (request_queue, NoReaction)
      else
        match from_user m with
        | None => (request_queue, AttributeError)
        | Some _ =>
            if can_process request_queue
            then (start_processing request_queue, Immediate DEFAULT_MODEL)
            else
              let (queue', position) :=
                add_to_queue request_queue
                             (mkRequest m DEFAULT_MODEL false None) now in
              if (position =? -1)%Z then (queue', QueueFull)
              else (queue', QueuedAt position)
        end
  end.

(** One round of [queue_processor]: the request for which a task is
    created, if any.  [start_processing] is called later, by the task. *)
Definition queue_processor_round (request_queue : RequestQueue) (now : Q)
  : RequestQueue * popped :=
  if can_process request_queue then get_next_request request_queue now
  else (request_queue, Returned None).

(** Vocabulary for the further properties. *)

(** The entity of one character. *)
Definition entity_of (c : N) : pystr :=
  if (c =? 38)%N then u "&amp;"
  else if (c =? 60)%N then u "&lt;"
  else if (c =? 62)%N then u "&gt;"
  else [c].

(** Reading the three entities back, from the left. *)
Fixpoint unescape_scan (skip : nat) (s : pystr) : pystr :=
  match s with
  | [] => []
  | c :: rest =>
      match skip with
      | S k => unescape_scan k rest
      | O =>
          if startswith s (u "&amp;") then 38%N :: unescape_scan 4 rest
          else if startswith s (u "&lt;") then 60%N :: unescape_scan 3 rest
          else if startswith s (u "&gt;") then 62%N :: unescape_scan 3 rest
          else c :: unescape_scan 0 rest
      end
  end.

(** Neither end of the string is white space. *)
Definition trimmed (s : pystr) : Prop :=
  (forall c rest, s = c :: rest -> is_space c = false) /\
  (forall c front, s = front ++ [c] -> is_space c = false).

(** The source a metadata record names. *)
Definition source_of (metadata : list (pystr * pystr)) : pystr :=
  dict_get metadata (u "source_file") (u "Unknown").

(** How many records name the source [s]. *)
Definition records_of (s : pystr) (ms : list (list (pystr * pystr))) : Z :=
  Z.of_nat (List.length (filter (fun md => str_eqb (source_of md) s) ms)).

Definition count_sum (d : list (pystr * Z)) : Z :=
  fold_right (fun kv acc => (snd kv + acc)%Z) 0%Z d.

(** How often an answer of a given kind occurs in a run. *)
Fixpoint rejections (tr : list (op * answer)) : Z :=
  match tr with
  | [] => 0
  | (_, Position p) :: rest =>
      ((if (p =? -1)%Z then 1 else 0) + rejections rest)%Z
  | _ :: rest => rejections rest
  end.

Fixpoint finishes (tr : list (op * answer)) : Z :=
  match tr with
  | [] => 0
  | (End_, _) :: rest => (1 + finishes rest)%Z
  | _ :: rest => finishes rest
  end.

(* ================================================================== *)
(** * Part II: properties                                               *)
(* ================================================================== *)

(** ** The request queue *)

Lemma exec_nil (self : RequestQueue) : exec self [] = self.
Proof. reflexivity. Qed.

Lemma exec_cons (self : RequestQueue) (o : op) (ops : list op) :
  exec self (o :: ops) = exec (fst (step self o)) ops.
Proof.
  unfold exec. simpl.
  destruct (step self o) as [self1 a]. simpl.
  destruct (run self1 ops) as [self2 tr]. reflexivity.
Qed.

Lemma run_cons (self : RequestQueue) (o : op) (ops : list op) :
  run self (o :: ops) =
  (fst (run (fst (step self o)) ops),
   (o, snd (step self o)) :: snd (run (fst (step self o)) ops)).
Proof.
  simpl. destruct (step self o) as [self1 a]. simpl.
  destruct (run self1 ops) as [self2 tr]. reflexivity.
Qed.

(** The two limits are fixed at construction. *)
Lemma step_limits (self : RequestQueue) (o : op) :
  max_concurrent (fst (step self o)) = max_concurrent self /\
  max_queue_size (fst (step self o)) = max_queue_size self.
Proof.
  destruct o as [r now | now | | ]; simpl.
  - unfold add_to_queue.
    destruct (max_queue_size self <=? _)%Z; simpl; auto.
  - unfold get_next_request.
    destruct (queue self) as [| request rest]; simpl; auto.
    destruct (queued_at request); simpl; auto.
  - auto.
  - auto.
Qed.

Lemma exec_limits (ops : list op) : forall self : RequestQueue,
  max_concurrent (exec self ops) = max_concurrent self /\
  max_queue_size (exec self ops) = max_queue_size self.
Proof.
  induction ops as [| o ops IH]; intros self.
  - rewrite exec_nil. auto.
  - rewrite exec_cons.
    destruct (IH (fst (step self o))) as [H1 H2].
    destruct (step_limits self o) as [H3 H4].
    split; congruence.
Qed.

Lemma add_to_queue_full (self : RequestQueue) (r : request_data) (now : Q) :
  (max_queue_size self <= waiting self)%Z ->
  add_to_queue self r now =
  (mkQueue (max_concurrent self) (max_queue_size self)
           (active_requests self) (queue self)
           (mkStats (total_processed (stats self)) (total_queued (stats self))
                    (total_rejected (stats self) + 1)
                    (avg_wait_time (stats self))),
   (-1)%Z).
Proof.
  intros H. unfold add_to_queue, waiting in *.
  destruct (Z.leb_spec (max_queue_size self)
                       (Z.of_nat (List.length (queue self))));
    [reflexivity | lia].
Qed.

Lemma add_to_queue_room (self : RequestQueue) (r : request_data) (now : Q) :
  (waiting self < max_queue_size self)%Z ->
  add_to_queue self r now =
  (mkQueue (max_concurrent self) (max_queue_size self)
           (active_requests self) (queue self ++ [stamp r now])
           (mkStats (total_processed (stats self))
                    (total_queued (stats self) + 1)
                    (total_rejected (stats self))
                    (avg_wait_time (stats self))),
   (waiting self + 1)%Z).
Proof.
  intros H. unfold add_to_queue, waiting in *.
  destruct (Z.leb_spec (max_queue_size self)
                       (Z.of_nat (List.length (queue self)))); [lia |].
  rewrite length_app. simpl. f_equal. lia.
Qed.

Lemma step_waiting_bound (self : RequestQueue) (o : op) :
  (waiting self <= max_queue_size self)%Z ->
  (waiting (fst (step self o)) <= max_queue_size self)%Z.
Proof.
  intros H. destruct o as [r now | now | | ]; simpl; auto.
  - destruct (Z.le_gt_cases (max_queue_size self) (waiting self)) as [Hf | Hr].
    + rewrite (add_to_queue_full self r now Hf). simpl. exact H.
    + rewrite (add_to_queue_room self r now Hr). unfold waiting in *. simpl.
      rewrite length_app. simpl. lia.
  - unfold get_next_request, waiting in *.
    destruct (queue self) as [| request rest] eqn:E; simpl in *.
    + rewrite E. exact H.
    + destruct (queued_at request); simpl; lia.
Qed.

Lemma exec_waiting_bound (ops : list op) : forall self : RequestQueue,
  (waiting self <= max_queue_size self)%Z ->
  (waiting (exec self ops) <= max_queue_size self)%Z.
Proof.
  induction ops as [| o ops IH]; intros self H.
  - rewrite exec_nil. exact H.
  - rewrite exec_cons.
    destruct (step_limits self o) as [_ Hq].
    rewrite <- Hq. apply IH. rewrite Hq.
    apply step_waiting_bound. exact H.
Qed.

(** C1. [add_to_queue] on a full wait list ([len(queue) >= max_queue_size])
    answers [-1], adds exactly one to [total_rejected] and leaves the wait
    list as it was; otherwise it stamps the request, appends it at the
    tail, adds one to [total_queued] and answers the 1-based position,
    which is the length of the wait list after the insertion.  Hence a
    wait list within [max_queue_size] stays within it along every run of
    calls on the queue. *)
Theorem add_to_queue_bounded :
  forall (self : RequestQueue) (r : request_data) (now : Q),
    let self' := fst (add_to_queue self r now) in
    let position := snd (add_to_queue self r now) in
    ((max_queue_size self <= waiting self)%Z ->
       position = (-1)%Z /\
       total_rejected (stats self') = (total_rejected (stats self) + 1)%Z /\
       total_queued (stats self') = total_queued (stats self) /\
       queue self' = queue self) /\
    ((waiting self < max_queue_size self)%Z ->
       queue self' = queue self ++ [stamp r now] /\
       total_queued (stats self') = (total_queued (stats self) + 1)%Z /\
       total_rejected (stats self') = total_rejected (stats self) /\
       position = waiting self' /\
       position = (waiting self + 1)%Z) /\
    (forall ops : list op,
       (waiting self <= max_queue_size self)%Z ->
       (waiting (exec self ops) <= max_queue_size self)%Z).
Proof.
  intros self r now self' position. subst self' position.
  split; [| split].
  - intros H. rewrite (add_to_queue_full self r now H). simpl. auto.
  - intros H. rewrite (add_to_queue_room self r now H). simpl.
    repeat split; try reflexivity.
    unfold waiting. simpl. rewrite length_app. simpl. lia.
  - intros ops H. apply exec_waiting_bound. exact H.
Qed.

Lemma add_to_queue_bounded_witness :
  snd (add_to_queue full_queue sample_request 5) = (-1)%Z /\
  snd (add_to_queue (init 1 10) sample_request 5) = 1%Z /\
  (waiting (exec (init 1 10) (repeat (Enqueue sample_request 0) 12)) <= 10)%Z.
Proof.
  split; [| split].
  - destruct (add_to_queue_bounded full_queue sample_request 5) as (H & _ & _).
    apply H. vm_compute. discriminate.
  - destruct (add_to_queue_bounded (init 1 10) sample_request 5) as (_ & H & _).
    apply H. vm_compute. reflexivity.
  - destruct (add_to_queue_bounded (init 1 10) sample_request 5) as (_ & _ & H).
    apply (H (repeat (Enqueue sample_request 0) 12)). vm_compute. discriminate.
Defined.

Lemma exec_active_nonneg (ops : list op) : forall self : RequestQueue,
  (0 <= active_requests self)%Z -> (0 <= active_requests (exec self ops))%Z.
Proof.
  induction ops as [| o ops IH]; intros self H.
  - rewrite exec_nil. exact H.
  - rewrite exec_cons. apply IH.
    destruct o as [r now | now | | ]; simpl.
    + unfold add_to_queue.
      destruct (max_queue_size self <=? _)%Z; simpl; exact H.
    + unfold get_next_request.
      destruct (queue self) as [| request rest]; simpl; [exact H |].
      destruct (queued_at request); simpl; exact H.
    + lia.
    + lia.
Qed.

Lemma exec_active_bound (ops : list op) : forall self : RequestQueue,
  (0 <= max_concurrent self)%Z ->
  (active_requests self <= max_concurrent self)%Z ->
  guarded self ops = true ->
  (active_requests (exec self ops) <= max_concurrent self)%Z.
Proof.
  induction ops as [| o ops IH]; intros self Hmc H Hadm.
  - rewrite exec_nil. exact H.
  - rewrite exec_cons. simpl in Hadm.
    apply andb_true_iff in Hadm. destruct Hadm as [Hcan Hrest].
    destruct (step_limits self o) as [Hc _].
    rewrite <- Hc. apply IH; [rewrite Hc; exact Hmc | | exact Hrest].
    rewrite Hc.
    destruct o as [r now | now | | ]; simpl.
    + unfold add_to_queue.
      destruct (max_queue_size self <=? _)%Z; simpl; exact H.
    + unfold get_next_request.
      destruct (queue self) as [| request rest]; simpl; [exact H |].
      destruct (queued_at request); simpl; exact H.
    + unfold can_process in Hcan. apply Z.ltb_lt in Hcan. lia.
    + lia.
Qed.

(** C2, as stated, fails: [start_processing] adds one without looking at
    [max_concurrent], so two of them in a row on the bot's queue
    ([max_concurrent = 1]) leave two active requests. *)
Lemma active_count_exceeds_limit :
  begin_end_only [Begin; Begin] = true /\
  (max_concurrent (exec (init 1 10) [Begin; Begin])
   < active_requests (exec (init 1 10) [Begin; Begin]))%Z.
Proof. vm_compute. split; reflexivity. Qed.

(** C2, amended. Along every run of calls from the initial state
    [active_requests] never goes negative; and it never exceeds
    [max_concurrent] (taken non-negative) along a run in which every
    [start_processing] is issued in a state where [can_process] answers
    [True]. *)
Theorem active_count_bounds :
  forall (mc mq : Z) (ops : list op),
    (0 <= active_requests (exec (init mc mq) ops))%Z /\
    ((0 <= mc)%Z ->
     guarded (init mc mq) ops = true ->
     (active_requests (exec (init mc mq) ops) <= mc)%Z).
Proof.
  intros mc mq ops. split.
  - apply exec_active_nonneg. simpl. lia.
  - intros Hmc Hadm.
    apply (exec_active_bound ops (init mc mq)); simpl; [lia | lia | exact Hadm].
Qed.

Lemma active_count_bounds_witness :
  (active_requests (exec (init 1 10) [Begin; End_; End_; Begin]) <= 1)%Z.
Proof.
  destruct (active_count_bounds 1 10 [Begin; End_; End_; Begin]) as [_ H].
  apply H.
  - vm_compute. discriminate.
  - vm_compute. reflexivity.
Defined.

(** Along a run that starts with stamped entries only, no call raises,
    the entries stay stamped, and what was waiting or accepted is what was
    handed out followed by what still waits. *)
Lemma run_fifo (ops : list op) : forall self : RequestQueue,
  forallb is_stamped (queue self) = true ->
  raised (snd (run self ops)) = false /\
  forallb is_stamped (queue (exec self ops)) = true /\
  queue self ++ accepted (snd (run self ops)) =
  handed_out (snd (run self ops)) ++ queue (exec self ops).
Proof.
  induction ops as [| o ops IH]; intros self Hst.
  - simpl. rewrite exec_nil, app_nil_r. auto.
  - rewrite run_cons, exec_cons. cbn [snd].
    destruct o as [r now | now | | ].
    + cbn [step].
      destruct (Z.le_gt_cases (max_queue_size self) (waiting self))
        as [Hf | Hr].
      * rewrite (add_to_queue_full self r now Hf). cbn [fst snd].
        cbn [raised accepted handed_out]. simpl (_ =? _)%Z. cbv iota.
        apply (IH (mkQueue _ _ _ (queue self) _)). exact Hst.
      * rewrite (add_to_queue_room self r now Hr). cbn [fst snd].
        cbn [raised accepted handed_out].
        assert (Hne : ((waiting self + 1 =? -1) = false)%Z).
        { apply Z.eqb_neq. unfold waiting. lia. }
        rewrite Hne.
        destruct (IH (mkQueue (max_concurrent self) (max_queue_size self)
                              (active_requests self)
                              (queue self ++ [stamp r now])
                              (mkStats (total_processed (stats self))
                                       (total_queued (stats self) + 1)
                                       (total_rejected (stats self))
                                       (avg_wait_time (stats self)))))
          as (H1 & H2 & H3).
        { cbn [queue]. rewrite forallb_app, Hst. reflexivity. }
        cbn [queue] in H3. rewrite <- app_assoc in H3. auto.
    + cbn [step]. unfold get_next_request.
      destruct (queue self) as [| request rest] eqn:E.
      * cbn [fst snd raised accepted handed_out].
        destruct (IH self) as (H1 & H2 & H3); [rewrite E; reflexivity |].
        rewrite E in H3. auto.
      * cbn [forallb] in Hst. apply andb_true_iff in Hst.
        destruct Hst as [Hreq Hrest]. unfold is_stamped in Hreq.
        destruct (queued_at request) as [t |]; [| discriminate].
        cbn [fst snd raised accepted handed_out].
        match goal with
        | |- context [run ?s ops] =>
            destruct (IH s) as (H1 & H2 & H3); [exact Hrest |]
        end.
        cbn [queue] in H3.
        split; [exact H1 | split; [exact H2 |]].
        rewrite <- !app_comm_cons. f_equal. exact H3.
    + cbn [step fst snd raised accepted handed_out].
      apply (IH (start_processing self)). exact Hst.
    + cbn [step fst snd raised accepted handed_out].
      apply (IH (finish_processing self)). exact Hst.
Qed.

(** [total_processed] only grows. *)
Lemma exec_total_processed (ops : list op) : forall self : RequestQueue,
  (total_processed (stats self)
   <= total_processed (stats (exec self ops)))%Z.
Proof.
  induction ops as [| o ops IH]; intros self.
  - rewrite exec_nil. lia.
  - rewrite exec_cons.
    apply Z.le_trans with (2 := IH (fst (step self o))).
    destruct o as [r now | now | | ]; simpl.
    + unfold add_to_queue.
      destruct (max_queue_size self <=? _)%Z; simpl; lia.
    + unfold get_next_request.
      destruct (queue self) as [| request rest]; simpl; [lia |].
      destruct (queued_at request); simpl; lia.
    + lia.
    + lia.
Qed.

(** The states the bot can be in: every waiting entry is stamped and the
    count of processed requests is not negative. *)
Lemma exec_init_well_formed (mc mq : Z) (ops : list op) :
  forallb is_stamped (queue (exec (init mc mq) ops)) = true /\
  (0 <= total_processed (stats (exec (init mc mq) ops)))%Z.
Proof.
  split.
  - destruct (run_fifo ops (init mc mq)) as (_ & H & _); [reflexivity |].
    exact H.
  - apply (exec_total_processed ops (init mc mq)).
Qed.

(** C6. [get_next_request] answers [None] on an empty wait list and
    otherwise pops the head; along every run of calls from the initial
    state no call raises, and the accepted requests, in the order of their
    arrival, are the requests handed out so far, in the order they were
    handed out, followed by the requests still waiting: requests leave in
    the order they arrived. *)
Theorem get_next_request_fifo :
  forall (mc mq : Z) (ops : list op),
    (forall (a : Z) (st : queue_stats) (now : Q),
        get_next_request (mkQueue mc mq a [] st) now =
        (mkQueue mc mq a [] st, Returned None)) /\
    (forall (a : Z) (st : queue_stats) (r : request_data) (t now : Q)
            (rest : list request_data),
        snd (get_next_request (mkQueue mc mq a (stamp r t :: rest) st) now) =
        Returned (Some (stamp r t)) /\
        queue (fst (get_next_request
                      (mkQueue mc mq a (stamp r t :: rest) st) now)) = rest) /\
    raised (snd (run (init mc mq) ops)) = false /\
    accepted (snd (run (init mc mq) ops)) =
    handed_out (snd (run (init mc mq) ops)) ++ queue (exec (init mc mq) ops).
Proof.
  intros mc mq ops. split; [| split].
  - reflexivity.
  - intros a st r t now rest. split; reflexivity.
  - destruct (run_fifo ops (init mc mq)) as (H1 & _ & H3); [reflexivity |].
    split; [exact H1 | exact H3].
Qed.

(** Three arrivals, two departures: the first two arrivals leave, in that
    order. *)
Example fifo_three :
  let r1 := mkRequest sample_message (u "a") false None in
  let r2 := mkRequest sample_message (u "b") false None in
  let r3 := mkRequest sample_message (u "c") true None in
  handed_out (snd (run (init 1 10)
     [Enqueue r1 1; Enqueue r2 2; Dequeue 3; Enqueue r3 4; Dequeue 5;
      Dequeue 6; Dequeue 7])) =
  [stamp r1 1; stamp r2 2; stamp r3 4].
Proof. reflexivity. Qed.

(** C7. On a non-empty wait list whose head was stamped at [t],
    [get_next_request] at time [now] hands out the head and sets
    [avg_wait_time] to
    [(avg_wait_time * total_processed + wait_time) / (total_processed + 1)]
    with [wait_time = now - t] and [total_processed] the count at that
    moment; with [total_processed = 0] the new average is [wait_time]
    itself. *)
Theorem avg_wait_time_running_mean :
  forall (self : RequestQueue) (now t : Q) (request : request_data)
         (rest : list request_data),
    queue self = request :: rest ->
    queued_at request = Some t ->
    (0 <= total_processed (stats self))%Z ->
    let self' := fst (get_next_request self now) in
    let total := total_processed (stats self) in
    let wait_time := (now - t)%Q in
    snd (get_next_request self now) = Returned (Some request) /\
    queue self' = rest /\
    total_processed (stats self') = total /\
    (avg_wait_time (stats self') ==
     (avg_wait_time (stats self) * inject_Z total + wait_time)
     / inject_Z (total + 1))%Q /\
    (total = 0%Z -> avg_wait_time (stats self') = wait_time).
Proof.
  intros self now t request rest Hq Ht Hpos self' total wait_time.
  subst self' total wait_time.
  unfold get_next_request. rewrite Hq, Ht. cbn [fst snd queue stats
    total_processed avg_wait_time].
  repeat split.
  - destruct (Z.ltb_spec 0 (total_processed (stats self))) as [Hlt | Hle].
    + reflexivity.
    + assert (H0 : total_processed (stats self) = 0%Z) by lia.
      rewrite H0. simpl (inject_Z _). field.
  - intros H0. rewrite H0. reflexivity.
Qed.

Lemma avg_wait_time_running_mean_witness :
  avg_wait_time
    (stats (fst (get_next_request
                   (exec (init 1 10) [Enqueue sample_request 2]) 5)))
  = (5 - 2)%Q.
Proof.
  apply (avg_wait_time_running_mean
           (exec (init 1 10) [Enqueue sample_request 2]) 5 (t := 2)
           (request := stamp sample_request 2) (rest := [])).
  - reflexivity.
  - reflexivity.
  - vm_compute. discriminate.
  - reflexivity.
Defined.

(** A second departure after one completed request: the mean of the two
    waits, [(3 * 1 + 5) / 2]. *)
Example avg_wait_time_two :
  let s := exec (init 1 10)
    [Enqueue sample_request 2; Enqueue sample_request 3; Dequeue 5;
     Begin; End_; Dequeue 8] in
  (avg_wait_time (stats s) == 4)%Q.
Proof. vm_compute. reflexivity. Qed.

(** ** Answering in groups *)

Lemma str_eqb_eq (a : pystr) : forall b : pystr, str_eqb a b = true <-> a = b.
Proof.
  induction a as [| x a IH]; intros [| y b]; simpl; split; intros H;
    try reflexivity; try discriminate.
  - apply andb_true_iff in H. destruct H as [Hx Hr].
    apply N.eqb_eq in Hx. apply IH in Hr. congruence.
  - injection H as Hx Hr. apply andb_true_iff. split.
    + apply N.eqb_eq. exact Hx.
    + apply IH. exact Hr.
Qed.

Lemma str_eqb_neq (a b : pystr) : str_eqb a b = false <-> a <> b.
Proof.
  split; intros H.
  - intros E. apply str_eqb_eq in E. congruence.
  - destruct (str_eqb a b) eqn:E; [| reflexivity].
    apply str_eqb_eq in E. contradiction.
Qed.

Lemma truthy_nonempty (s : pystr) : truthy s = true <-> s <> [].
Proof. destruct s; simpl; split; congruence. Qed.

Section GroupFacts.

Variable lower : pystr -> pystr.
Variables (bot_id : Z) (bot_name : pystr).
Hypothesis name_known : bot_name <> [].
Hypothesis id_known : bot_id <> 0%Z.

Lemma mentioned_loop_spec (t : pystr) (es : list MessageEntity) :
  mentioned_loop lower (known_bot bot_id bot_name) t es = true <->
  exists e, In e es /\ e_type e = u "mention" /\ names_bot lower bot_name t e.
Proof using name_known.
  induction es as [| e es IH].
  - simpl. split; [discriminate | intros (e & [] & _)].
  - cbn [mentioned_loop known_bot username].
    assert (Ht : truthy bot_name = true)
      by (apply truthy_nonempty; exact name_known).
    rewrite Ht. cbn [andb].
    destruct (str_eqb (e_type e) (u "mention")) eqn:Ety.
    + fold (span t e).
      destruct (str_eqb (lower (span t e)) (u "@" ++ lower bot_name)) eqn:Esp.
      * split; [intros _ | reflexivity].
        exists e. split; [left; reflexivity |].
        split; [apply str_eqb_eq; exact Ety | apply str_eqb_eq; exact Esp].
      * rewrite IH. split.
        -- intros (e' & Hin & Hty & Hnm). exists e'.
           split; [right; exact Hin | auto].
        -- intros (e' & [He | Hin] & Hty & Hnm).
           ++ subst e'. apply str_eqb_neq in Esp. contradiction.
           ++ exists e'. auto.
    + rewrite IH. split.
      * intros (e' & Hin & Hty & Hnm). exists e'.
        split; [right; exact Hin | auto].
      * intros (e' & [He | Hin] & Hty & Hnm).
        -- subst e'. apply str_eqb_neq in Ety. contradiction.
        -- exists e'. auto.
Qed.

Lemma foreign_loop_spec (t : pystr) (es : list MessageEntity) :
  foreign_loop lower (known_bot bot_id bot_name) t es = true <->
  forall e, In e es -> e_type e = u "mention" -> names_bot lower bot_name t e.
Proof using name_known.
  induction es as [| e es IH].
  - simpl. split; [intros _ e [] | reflexivity].
  - cbn [foreign_loop known_bot username].
    assert (Ht : truthy bot_name = true)
      by (apply truthy_nonempty; exact name_known).
    rewrite Ht. cbn [andb].
    destruct (str_eqb (e_type e) (u "mention")) eqn:Ety.
    + fold (span t e).
      destruct (str_eqb (lower (span t e)) (u "@" ++ lower bot_name)) eqn:Esp;
        cbn [negb].
      * rewrite IH. split.
        -- intros H e' [He | Hin] Hty;
             [subst e'; apply str_eqb_eq; exact Esp | auto].
        -- intros H e' Hin Hty. apply H; [right; exact Hin | exact Hty].
      * split; [discriminate |]. intros H.
        apply str_eqb_neq in Esp. exfalso. apply Esp.
        apply (H e); [left; reflexivity | apply str_eqb_eq; exact Ety].
    + rewrite IH. split.
      * intros H e' [He | Hin] Hty; [| auto].
        subst e'. apply str_eqb_neq in Ety. contradiction.
      * intros H e' Hin Hty. apply H; [right; exact Hin | exact Hty].
Qed.

Lemma is_bot_mentioned_spec (m : Message) (t : pystr) :
  text m = Some t -> t <> [] ->
  (is_bot_mentioned lower (known_bot bot_id bot_name) m = true <->
   direct_mention lower bot_name m t).
Proof using name_known.
  intros Htext Hne. unfold is_bot_mentioned, direct_mention, entity_list.
  rewrite Htext. apply truthy_nonempty in Hne. rewrite Hne.
  destruct (entities m) as [es |].
  - apply mentioned_loop_spec.
  - split; [discriminate | intros (e & [] & _)].
Qed.

Lemma is_reply_to_bot_spec (m : Message) :
  is_reply_to_bot (known_bot bot_id bot_name) m = true <-> reply_to bot_id m.
Proof using id_known.
  unfold is_reply_to_bot, reply_to.
  destruct (reply_to_message m) as [replied |].
  - destruct (from_user replied) as [author |] eqn:Ea.
    + cbn [known_bot user_id].
      assert (Hz : negb (bot_id =? 0)%Z = true).
      { apply negb_true_iff. apply Z.eqb_neq. exact id_known. }
      rewrite Hz. cbn [andb]. rewrite Z.eqb_eq. split.
      * intros H. exists replied, author. auto.
      * intros (r' & a' & Hr & Ha & Hid). congruence.
    + split; [discriminate |].
      intros (r' & a' & Hr & Ha & Hid). congruence.
  - split; [discriminate |].
    intros (r' & a' & Hr & _). discriminate.
Qed.

Lemma is_question_in_air_spec (m : Message) (t : pystr) :
  text m = Some t -> t <> [] ->
  (is_question_in_air lower (known_bot bot_id bot_name) m = true <->
   untargeted_question lower bot_name bot_id m t).
Proof using name_known id_known.
  intros Htext Hne. unfold is_question_in_air, untargeted_question.
  rewrite Htext. apply truthy_nonempty in Hne. rewrite Hne.
  destruct (endswith (strip t) (u "?")) eqn:Eq; cbn [negb].
  2:{ split; [discriminate | intros (H & _); discriminate]. }
  destruct (reply_to_message m) as [replied |] eqn:Er.
  - destruct (is_reply_to_bot (known_bot bot_id bot_name) m) eqn:Eb; cbn [negb].
    + assert (Hb : reply_to bot_id m) by (apply is_reply_to_bot_spec; exact Eb).
      unfold entity_list. destruct (entities m) as [es |].
      * rewrite foreign_loop_spec. split.
        -- intros H. auto.
        -- intros (_ & _ & H). exact H.
      * split; [| reflexivity]. intros _.
        split; [reflexivity | split; [right; exact Hb | intros e []]].
    + split; [discriminate |]. intros (_ & [Hn | Hb] & _); [discriminate |].
      apply is_reply_to_bot_spec in Hb. congruence.
  - unfold entity_list. destruct (entities m) as [es |].
    + rewrite foreign_loop_spec. split.
      * intros H. auto.
      * intros (_ & _ & H). exact H.
    + split; [| reflexivity]. intros _.
      split; [reflexivity | split; [left; reflexivity | intros e []]].
Qed.

End GroupFacts.

(** The mode ["smart"] on the code's own reading of an entity (the slice
    by code points).  With the bot's username and id known, and on a
    message that has text, [should_respond_in_group] answers [True]
    exactly when (1) some mention span is ['@' + username], case aside, or
    (2) the message answers a message written by the bot's id, or (3) the
    stripped text ends with ['?'], the message answers nothing or answers
    the bot, and every mention span in it is the bot's own.  The three
    tests are tried in this order and each one is enough. *)
Theorem should_respond_smart :
  forall (lower : pystr -> pystr) (bot_id : Z) (bot_name : pystr)
         (m : Message) (t : pystr),
    bot_name <> [] ->
    bot_id <> 0%Z ->
    text m = Some t ->
    t <> [] ->
    (should_respond_in_group lower (Some (mkUser bot_id (Some bot_name)))
                             (u "smart") m = true
     <->
     direct_mention lower bot_name m t \/
     reply_to bot_id m \/
     untargeted_question lower bot_name bot_id m t).
Proof.
  intros lower bot_id bot_name m t Hname Hid Htext Hne.
  change (Some (mkUser bot_id (Some bot_name)))
    with (known_bot bot_id bot_name).
  unfold should_respond_in_group.
  change (str_eqb (u "smart") (u "all")) with false.
  change (str_eqb (u "smart") (u "mention_only")) with false.
  cbv iota.
  rewrite <- (@is_bot_mentioned_spec lower bot_id bot_name Hname m t Htext Hne).
  rewrite <- (@is_reply_to_bot_spec bot_id bot_name Hid m).
  rewrite <- (@is_question_in_air_spec lower bot_id bot_name Hname Hid m t
                                       Htext Hne).
  destruct (is_bot_mentioned _ _ m); [tauto |].
  destruct (is_reply_to_bot _ m); [tauto |].
  destruct (is_question_in_air _ _ m); [tauto |].
  split; [discriminate | intros [H | [H | H]]; discriminate].
Qed.

Lemma should_respond_smart_witness :
  should_respond_in_group ascii_lower elaya (u "smart")
    (group_message "Is the weather nice today?" [] None) = true.
Proof.
  apply (should_respond_smart ascii_lower (bot_id := 42)
           (bot_name := u "elayabot")
           (group_message "Is the weather nice today?" [] None)
           (t := u "Is the weather nice today?")).
  - discriminate.
  - discriminate.
  - reflexivity.
  - discriminate.
  - right. right. split; [reflexivity |].
    split; [left; reflexivity | intros e []].
Defined.

(** The admission examples of the specification. *)
Example smart_mention :
  should_respond_in_group ascii_lower elaya (u "smart")
    (group_message "@ElayaBot tell me more"
                   [mkEntity (u "mention") 0 9]
                   (Some (group_message "hi" [] None))) = true.
Proof. reflexivity. Qed.

Example smart_foreign_mention :
  should_respond_in_group ascii_lower elaya (u "smart")
    (group_message "@someoneelse, is the weather nice?"
                   [mkEntity (u "mention") 0 12] None) = false.
Proof. reflexivity. Qed.

Lemma utf16_to_index_bmp (t : pystr) : forall k : Z,
  bmp_text t = true -> (0 <= k)%Z ->
  utf16_to_index t k = Z.to_nat (Z.min k (len t)).
Proof.
  induction t as [| c t IH]; intros k Hb Hk.
  - simpl. unfold len. simpl. lia.
  - cbn [bmp_text forallb] in Hb. apply andb_true_iff in Hb.
    destruct Hb as [Hc Ht]. cbn [utf16_to_index].
    assert (Hw : utf16_width c = 1%Z).
    { unfold utf16_width. apply N.ltb_lt in Hc.
      destruct (N.leb_spec 65536 c); [lia | reflexivity]. }
    rewrite Hw. unfold len in *. cbn [List.length].
    destruct (Z.leb_spec k 0) as [H0 | Hpos].
    + lia.
    + rewrite (IH (k - 1)%Z Ht) by lia. lia.
Qed.

(** On a text inside the Basic Multilingual Plane the slice by code
    points is the text the transport marks. *)
Lemma span_is_transport_span (t : pystr) (e : MessageEntity) :
  bmp_text t = true ->
  (0 <= e_offset e)%Z -> (0 <= e_length e)%Z ->
  span t e = transport_span t e.
Proof.
  intros Hb Ho Hl. unfold span, transport_span, slice.
  rewrite !(utf16_to_index_bmp t) by (assumption || lia).
  assert (Hn : (0 <= len t)%Z) by (unfold len; lia).
  unfold clamp_index.
  destruct (Z.ltb_spec (e_offset e) 0); [lia |].
  destruct (Z.ltb_spec (e_offset e + e_length e) 0); [lia |].
  f_equal. lia.
Qed.

(** C3, a defect of the code. The transport counts the offset of an
    entity in UTF-16 code units, the code slices the text by code points.
    On a question that starts with an emoji and then names the bot, the
    marked text is ["@elayabot"], the code reads ["elayabot "], finds no
    mention of the bot, takes the entity for a mention of somebody else,
    and [should_respond_in_group] answers [False] in the mode ["smart"]
    (and in the mode ["mention_only"]), where clause (1) asks for
    [True]. *)
Lemma mention_after_astral_character_missed :
  transport_span astral_mention_text (mkEntity (u "mention") 3 9)
  = u "@elayabot" /\
  span astral_mention_text (mkEntity (u "mention") 3 9) = u "elayabot " /\
  is_bot_mentioned ascii_lower elaya astral_mention = false /\
  is_question_in_air ascii_lower elaya astral_mention = false /\
  should_respond_in_group ascii_lower elaya (u "smart") astral_mention
  = false /\
  should_respond_in_group ascii_lower elaya (u "mention_only") astral_mention
  = false.
Proof. repeat split; reflexivity. Qed.


Lemma foreign_loop_unknown (lower : pystr -> pystr) (me : option User)
      (t : pystr) (es : list MessageEntity) :
  username_unknown me -> foreign_loop lower me t es = true.
Proof.
  intros Hme. induction es as [| e es IH]; [reflexivity |].
  cbn [foreign_loop].
  destruct (str_eqb (e_type e) (u "mention")); [| exact IH].
  destruct me as [b |]; cbn in Hme |- *.
  - destruct Hme as [Hn | Hn]; rewrite Hn; cbn; exact IH.
  - exact IH.
Qed.

(** C9. While the bot does not know its username, [is_question_in_air]
    does not look at whom the mentions name: a message whose stripped
    text ends with ['?'] and which answers nothing, or answers the bot, is
    a question in the air whatever its entities are. *)
Theorem question_in_air_without_username :
  forall (lower : pystr -> pystr) (me : option User) (m : Message) (t : pystr),
    username_unknown me ->
    text m = Some t ->
    endswith (strip t) (u "?") = true ->
    (reply_to_message m = None \/ is_reply_to_bot me m = true) ->
    is_question_in_air lower me m = true.
Proof.
  intros lower me m t Hme Htext Hq Hreply.
  unfold is_question_in_air. rewrite Htext.
  destruct t as [| c t']; [discriminate |]. cbn [truthy].
  rewrite Hq. cbn [negb].
  assert (Hr : match reply_to_message m with
               | Some _ => negb (is_reply_to_bot me m)
               | None => false
               end = false).
  { destruct Hreply as [Hn | Hb]; [rewrite Hn; reflexivity |].
    rewrite Hb. destruct (reply_to_message m); reflexivity. }
  rewrite Hr.
  destruct (entities m) as [es |]; [| reflexivity].
  apply foreign_loop_unknown. exact Hme.
Qed.

Lemma question_in_air_without_username_witness :
  is_question_in_air ascii_lower None
    (group_message "@bob are you coming?" [mkEntity (u "mention") 0 4] None)
  = true.
Proof.
  apply (question_in_air_without_username ascii_lower None
           (group_message "@bob are you coming?"
                          [mkEntity (u "mention") 0 4] None)
           (t := u "@bob are you coming?")).
  - exact I.
  - reflexivity.
  - reflexivity.
  - left. reflexivity.
Defined.

(** The same message once the username is known: the mention of somebody
    else makes it a question to that person. *)
Example question_in_air_with_username :
  is_question_in_air ascii_lower elaya
    (group_message "@bob are you coming?" [mkEntity (u "mention") 0 4] None)
  = false.
Proof. reflexivity. Qed.

(** ** Removing the bot's mention *)

Section MentionFacts.

Variable ci_char : N -> N -> bool.

Lemma sub_scan_skip (pat : pystr) (xs post : pystr) :
  sub_scan ci_char pat (List.length xs) (xs ++ post) =
  sub_scan ci_char pat 0 post.
Proof.
  induction xs as [| x xs IH]; [reflexivity |]. simpl. exact IH.
Qed.

Lemma match_here_app (pat occ post : pystr) :
  match_here ci_char pat occ = true ->
  match_here ci_char pat (occ ++ post) = true.
Proof.
  revert occ. induction pat as [| p pat IH]; intros occ H; [reflexivity |].
  destruct occ as [| c occ]; [discriminate |].
  simpl in *. apply andb_true_iff in H. destruct H as [Hc Hr].
  rewrite Hc. simpl. apply IH. exact Hr.
Qed.

(** Up to the first occurrence the scan copies the text; it drops the
    occurrence and goes on behind it. *)
Lemma sub_scan_first (pat pre occ post : pystr) :
  pat <> [] ->
  List.length occ = List.length pat ->
  match_here ci_char pat occ = true ->
  (forall i, (i < List.length pre)%nat ->
             match_here ci_char pat (skipn i (pre ++ occ ++ post)) = false) ->
  sub_scan ci_char pat 0 (pre ++ occ ++ post) =
  pre ++ sub_scan ci_char pat 0 post.
Proof.
  intros Hpat Hlen Hocc. induction pre as [| c pre IH]; intros Hpre.
  - simpl. destruct occ as [| o occ].
    + destruct pat; [contradiction | discriminate].
    + cbn [app sub_scan].
      change (o :: occ ++ post) with ((o :: occ) ++ post).
      rewrite (match_here_app pat (o :: occ) post Hocc).
      simpl in Hlen. rewrite <- Hlen. simpl. rewrite Nat.sub_0_r.
      apply sub_scan_skip.
  - cbn [app sub_scan].
    assert (H0 := Hpre 0%nat). simpl in H0. rewrite H0 by lia.
    f_equal. apply IH. intros i Hi.
    apply (Hpre (S i)). simpl. lia.
Qed.


End MentionFacts.




Example remove_bot_mention_twice :
  remove_bot_mention ascii_ci (u "hi @Bot, @bot?") (Some (u "bot"))
  = u "hi , ?".
Proof. reflexivity. Qed.

(** ** Retrieval and the relevance gate *)

Lemma fge_not_flt (a b : pyfloat) : fge a b = true -> flt a b = false.
Proof.
  destruct a, b; simpl; try discriminate; try reflexivity.
  intros H. rewrite H. reflexivity.
Qed.

Lemma context_parts_length (docs : list found) : forall i : Z,
  List.length (context_parts i docs) = List.length docs.
Proof.
  induction docs as [| d docs IH]; intros i; simpl; [reflexivity |].
  rewrite IH. reflexivity.
Qed.

(** C4. With retrieval switched on ([RAG_ENABLED] and
    [RAG_ALWAYS_SEARCH]), when [search] answers a non-empty list the
    backend is called with the whole list as context exactly when the
    score of the first result is below [RAG_RELEVANCE_THRESHOLD = 1.5];
    when that score is at or above the threshold the plain call is made
    and no result is used; when [search] answers the empty list the plain
    call is made; and [search] answers the empty list whenever the vector
    store raises.  The context built for the backend has one part per
    result. *)
Theorem relevance_gate :
  forall (rag : RAGManager) (model user_text : pystr),
    let docs := search rag user_text RAG_TOP_K in
    let call := choose_call true true rag model user_text in
    (forall best rest,
        docs = best :: rest ->
        (call = call_ollama_with_context model user_text (best :: rest)
         <-> flt (score best) (Fin (3 # 2)) = true) /\
        (fge (score best) (Fin (3 # 2)) = true ->
         call = call_ollama_stream model user_text) /\
        List.length (context_parts 1 (best :: rest)) = S (List.length rest)) /\
    (docs = [] -> call = call_ollama_stream model user_text) /\
    (forall store,
        vectorstore rag = Some store ->
        store user_text RAG_TOP_K = Raises ->
        docs = [] /\ call = call_ollama_stream model user_text).
Proof.
  intros rag model user_text docs call.
  assert (Hcall : call =
                  match docs with
                  | [] => call_ollama_stream model user_text
                  | best :: _ =>
                      if flt (score best) RAG_RELEVANCE_THRESHOLD
                      then call_ollama_with_context model user_text docs
                      else call_ollama_stream model user_text
                  end).
  { subst call docs. unfold choose_call, rag_block. cbn [andb].
    destruct (search rag user_text RAG_TOP_K) as [| best rest]; [reflexivity |].
    destruct (flt (score best) RAG_RELEVANCE_THRESHOLD); reflexivity. }
  assert (Hempty : docs = [] -> call = call_ollama_stream model user_text).
  { intros H. rewrite Hcall, H. reflexivity. }
  split; [| split].
  - intros best rest Hdocs. rewrite Hcall, Hdocs.
    unfold RAG_RELEVANCE_THRESHOLD. split; [| split].
    + destruct (flt (score best) (Fin (3 # 2))).
      * split; reflexivity.
      * split; discriminate.
    + intros H. rewrite (fge_not_flt _ _ H). reflexivity.
    + apply (context_parts_length (best :: rest) 1).
  - exact Hempty.
  - intros store Hstore Hraise.
    assert (Hd : docs = []).
    { subst docs. unfold search. rewrite Hstore, Hraise.
      destruct (is_initialized rag); reflexivity. }
    split; [exact Hd | apply Hempty; exact Hd].
Qed.

Lemma relevance_gate_witness :
  choose_call true true (mkRAG true (Some (ten_passages (12 # 10))))
              (u "m") (u "q") =
  call_ollama_with_context
    (u "m") (u "q")
    (search (mkRAG true (Some (ten_passages (12 # 10)))) (u "q") RAG_TOP_K) /\
  choose_call true true (mkRAG true (Some (ten_passages (18 # 10))))
              (u "m") (u "q") = call_ollama_stream (u "m") (u "q") /\
  choose_call true true (mkRAG true (Some broken_store)) (u "m") (u "q")
  = call_ollama_stream (u "m") (u "q").
Proof.
  split; [| split].
  - destruct (relevance_gate (mkRAG true (Some (ten_passages (12 # 10))))
                             (u "m") (u "q")) as (H & _ & _).
    destruct (search (mkRAG true (Some (ten_passages (12 # 10)))) (u "q")
                     RAG_TOP_K) as [| best rest] eqn:E; [discriminate |].
    apply (H best rest eq_refl).
    injection E as Eb _. subst best. reflexivity.
  - destruct (relevance_gate (mkRAG true (Some (ten_passages (18 # 10))))
                             (u "m") (u "q")) as (H & _ & _).
    destruct (search (mkRAG true (Some (ten_passages (18 # 10)))) (u "q")
                     RAG_TOP_K) as [| best rest] eqn:E; [discriminate |].
    apply (H best rest eq_refl).
    injection E as Eb _. subst best. reflexivity.
  - destruct (relevance_gate (mkRAG true (Some broken_store))
                             (u "m") (u "q")) as (_ & _ & H).
    apply (H broken_store eq_refl eq_refl).
Defined.

(** Ten candidates, the best at 1.8: none is used. *)
Example gate_discards_all :
  rag_block true true (mkRAG true (Some (ten_passages (18 # 10)))) (u "q")
  = (false, search (mkRAG true (Some (ten_passages (18 # 10)))) (u "q") 5) /\
  List.length (search (mkRAG true (Some (ten_passages (18 # 10)))) (u "q") 5)
  = 10%nat.
Proof. split; reflexivity. Qed.

(** ** Splitting a long reply *)

Lemma all_space_app (a b : pystr) :
  all_space (a ++ b) = all_space a && all_space b.
Proof. unfold all_space. apply forallb_app. Qed.

Lemma all_space_rev (a : pystr) : all_space (rev a) = all_space a.
Proof.
  induction a as [| c a IH]; [reflexivity |].
  simpl. rewrite all_space_app, IH. simpl.
  rewrite andb_true_r. apply andb_comm.
Qed.

Lemma lstrip_split (s : pystr) :
  exists a, s = a ++ lstrip s /\ all_space a = true.
Proof.
  induction s as [| c s (a & Hs & Ha)].
  - exists []. split; reflexivity.
  - simpl. destruct (is_space c) eqn:Ec.
    + exists (c :: a). simpl. rewrite Ec, Ha. split; [congruence | reflexivity].
    + exists []. split; reflexivity.
Qed.

Lemma rstrip_split (s : pystr) :
  exists b, s = rstrip s ++ b /\ all_space b = true.
Proof.
  destruct (lstrip_split (rev s)) as (a & Hs & Ha).
  exists (rev a). split.
  - unfold rstrip. rewrite <- rev_app_distr, <- Hs, rev_involutive. reflexivity.
  - rewrite all_space_rev. exact Ha.
Qed.

(** [strip] takes white space off both ends and nothing else. *)
Lemma strip_split (s : pystr) :
  exists a b, s = a ++ strip s ++ b /\
              all_space a = true /\ all_space b = true.
Proof.
  destruct (lstrip_split s) as (a & Hs & Ha).
  destruct (rstrip_split (lstrip s)) as (b & Hl & Hb).
  exists a, b. unfold strip. rewrite <- Hl. auto.
Qed.

Lemma strip_length (s : pystr) : (len (strip s) <= len s)%Z.
Proof.
  destruct (strip_split s) as (a & b & Hs & _).
  unfold len. rewrite Hs at 2. rewrite !length_app. lia.
Qed.

Lemma slice_to_from (s : pystr) (i : Z) : slice_to s i ++ slice_from s i = s.
Proof. unfold slice_to, slice_from. apply firstn_skipn. Qed.

Lemma clamp_index_inside (n i : Z) :
  (0 <= i <= n)%Z -> clamp_index n i = i.
Proof.
  intros H. unfold clamp_index.
  destruct (Z.ltb_spec i 0); lia.
Qed.

Lemma slice_to_length (s : pystr) (i : Z) :
  (0 <= i <= len s)%Z -> len (slice_to s i) = i.
Proof.
  intros H. unfold slice_to. rewrite clamp_index_inside by exact H.
  unfold len in *. rewrite length_firstn. lia.
Qed.

Lemma slice_from_length (s : pystr) (i : Z) :
  (0 <= i <= len s)%Z -> len (slice_from s i) = (len s - i)%Z.
Proof.
  intros H. unfold slice_from. rewrite clamp_index_inside by exact H.
  unfold len in *. rewrite length_skipn. lia.
Qed.

Lemma rfind_scan_range (s sub : pystr) (lo n : nat) :
  rfind_scan s sub lo n = (-1)%Z \/
  (Z.of_nat lo <= rfind_scan s sub lo n < Z.of_nat (lo + n))%Z.
Proof.
  induction n as [| k IH]; [left; reflexivity |].
  simpl. destruct (startswith (skipn (lo + k) s) sub).
  - right. lia.
  - destruct IH as [IH | IH]; [left; exact IH | right; lia].
Qed.

(** [rfind] in the window [0 .. e] answers [-1] or an index at which the
    whole of [sub] fits before [e]. *)
Lemma rfind_range (s sub : pystr) (e : Z) :
  (0 <= e <= len s)%Z ->
  rfind s sub 0 e = (-1)%Z \/ (0 <= rfind s sub 0 e <= e - len sub)%Z.
Proof.
  intros H. unfold rfind.
  rewrite (clamp_index_inside (n := len s) (i := 0)) by lia.
  rewrite (clamp_index_inside H).
  destruct (Z.ltb_spec (e - 0) (len sub)); [left; reflexivity |].
  destruct (rfind_scan_range s sub (Z.to_nat 0)
                             (Z.to_nat (e - 0 - len sub + 1)))
    as [Hr | Hr]; [left; exact Hr | right].
  rewrite Nat2Z.inj_add, !Z2Nat.id in Hr by lia. lia.
Qed.

Lemma split_index_range (text : pystr) (max_length : Z) :
  (1 <= max_length <= len text)%Z ->
  (1 <= split_index text max_length <= max_length)%Z.
Proof.
  intros H. unfold split_index.
  assert (Hw : (0 <= max_length <= len text)%Z) by lia.
  assert (Hsub : forall sub, (0 <= len sub)%Z) by (intros sub; unfold len; lia).
  pose proof (rfind_range text [10; 10]%N Hw) as H1.
  pose proof (rfind_range text (u ". ") Hw) as H2.
  pose proof (rfind_range text (u " ") Hw) as H3.
  pose proof (Hsub [10; 10]%N) as L1.
  pose proof (Hsub (u ". ")) as L2.
  pose proof (Hsub (u " ")) as L3.
  set (i1 := rfind text [10; 10]%N 0 max_length) in *.
  set (i2 := rfind text (u ". ") 0 max_length) in *.
  set (i3 := rfind text (u " ") 0 max_length) in *.
  destruct (Z.eqb_spec i1 (-1)) as [E1 | E1].
  - destruct (Z.eqb_spec i2 (-1)) as [E2 | E2].
    + destruct (Z.eqb_spec i3 (-1)) as [E3 | E3]; cbn [orb]; [lia |].
      destruct (Z.eqb_spec i3 0); lia.
    + rewrite (proj2 (Z.eqb_neq i2 (-1)) E2). cbn [orb].
      destruct (Z.eqb_spec i2 0); lia.
  - rewrite (proj2 (Z.eqb_neq i1 (-1)) E1).
    rewrite (proj2 (Z.eqb_neq i1 (-1)) E1). cbn [orb].
    destruct (Z.eqb_spec i1 0); lia.
Qed.

(** More fuel does not change an answer. *)
Lemma split_loop_more_fuel (fuel : nat) :
  forall (text : pystr) (max_length : Z) (chunks out : list pystr)
         (fuel' : nat),
    split_loop fuel text max_length chunks = Some out ->
    (fuel <= fuel')%nat ->
    split_loop fuel' text max_length chunks = Some out.
Proof.
  induction fuel as [| f IH]; intros text ml chunks out fuel' H Hle.
  - simpl in H. destruct fuel'; simpl;
      destruct (ml <? len text)%Z; congruence.
  - destruct fuel' as [| f']; [lia |].
    simpl in *. destruct (ml <? len text)%Z; [| exact H].
    eapply IH; [exact H | lia].
Qed.

(** With a limit of at least one the loop ends within [length text]
    rounds, every chunk it adds is within the limit, and it adds a chunk
    unless the text is empty. *)
Lemma split_loop_total (fuel : nat) :
  forall (text : pystr) (max_length : Z) (chunks : list pystr),
    (1 <= max_length)%Z ->
    (List.length text <= fuel)%nat ->
    exists new,
      split_loop fuel text max_length chunks = Some (chunks ++ new) /\
      Forall (fun c => (len c <= max_length)%Z) new /\
      (text <> [] -> new <> []).
Proof.
  induction fuel as [| f IH]; intros text ml chunks Hml Hfuel.
  - destruct text; [| simpl in Hfuel; lia].
    exists []. simpl.
    destruct (Z.ltb_spec ml (len []));
      [unfold len in *; simpl in *; lia |].
    rewrite app_nil_r. repeat split; [constructor | congruence].
  - cbn [split_loop]. destruct (Z.ltb_spec ml (len text)) as [Hlong | Hshort].
    + pose proof (split_index_range text (max_length := ml)) as Hi.
      specialize (Hi ltac:(lia)).
      set (i := split_index text ml) in *.
      destruct (IH (strip (slice_from text i)) ml
                   (chunks ++ [strip (slice_to text i)]) Hml)
        as (new & Hrun & Hall & _).
      { pose proof (strip_length (slice_from text i)) as Hs.
        rewrite slice_from_length in Hs by lia.
        unfold len in *. lia. }
      exists (strip (slice_to text i) :: new).
      rewrite Hrun, <- app_assoc. split; [reflexivity |].
      split; [| discriminate].
      constructor; [| exact Hall].
      pose proof (strip_length (slice_to text i)) as Hs.
      rewrite slice_to_length in Hs by lia. lia.
    + destruct text as [| c text].
      * exists []. rewrite app_nil_r. repeat split; [constructor | congruence].
      * exists [c :: text]. cbn [truthy].
        repeat split;
          [constructor; [exact Hshort | constructor] | discriminate].
Qed.

Lemma split_text_total_aux (text : pystr) (max_length : Z) :
  (1 <= max_length)%Z ->
  exists chunks,
    split_text (List.length text) text max_length = Some chunks.
Proof.
  intros Hml. unfold split_text. destruct text as [| c text].
  - exists [ [] ]. reflexivity.
  - cbn [truthy negb].
    destruct (split_loop_total (c :: text) [] Hml (le_n _)) as (new & Hrun & _).
    exists new. exact Hrun.
Qed.

(** C10. For a limit of at least one, [split_text] ends (the loop needs
    no more rounds than the text has characters) and answers a non-empty
    list of chunks, each of length at most [max_length]; on the empty
    text the answer is the list holding the empty string. *)
Theorem split_text_chunks_bounded :
  forall (text : pystr) (max_length : Z),
    (1 <= max_length)%Z ->
    (exists chunks,
        (forall fuel, (List.length text <= fuel)%nat ->
                      split_text fuel text max_length = Some chunks) /\
        chunks <> [] /\
        Forall (fun c => (len c <= max_length)%Z) chunks) /\
    (forall fuel, split_text fuel [] max_length = Some [ [] ]).
Proof.
  intros text ml Hml. split; [| reflexivity].
  destruct text as [| c text].
  - exists [ [] ]. split; [reflexivity |]. split; [discriminate |].
    constructor; [unfold len; simpl; lia | constructor].
  - destruct (split_loop_total (c :: text) [] Hml (le_n _))
      as (new & Hrun & Hall & Hne).
    exists new. split; [| split].
    + intros fuel Hfuel. unfold split_text. cbn [truthy negb].
      eapply split_loop_more_fuel; [exact Hrun | exact Hfuel].
    + apply Hne. discriminate.
    + exact Hall.
Qed.

Lemma split_text_chunks_bounded_witness :
  exists chunks,
    (forall fuel, (37 <= fuel)%nat ->
                  split_text fuel (u "hello world. this is a test of things") 10
                  = Some chunks) /\
    chunks <> [] /\
    Forall (fun c => (len c <= 10)%Z) chunks.
Proof.
  destruct (split_text_chunks_bounded
              (u "hello world. this is a test of things") (max_length := 10))
    as [H _]; [lia | exact H].
Defined.

Example split_text_sentence :
  split_text 37 (u "hello world. this is a test of things") 10 =
  Some [u "hello"; u "world"; u ". this is"; u "a test of"; u "things"].
Proof. reflexivity. Qed.

Lemma split_loop_zero_limit (fuel : nat) : forall chunks : list pystr,
  split_loop fuel (u "a") 0 chunks = None.
Proof.
  induction fuel as [| f IH]; intros chunks; [reflexivity |].
  cbn [split_loop].
  change (0 <? len (u "a"))%Z with true. cbv iota.
  change (strip (slice_from (u "a") (split_index (u "a") 0))) with (u "a").
  apply IH.
Qed.

(** With a limit of zero the loop of [split_text] does not end on a text
    that has a visible character. *)
Example split_text_zero_limit :
  forall fuel, split_text fuel (u "a") 0 = None.
Proof. intros fuel. apply split_loop_zero_limit. Qed.

Lemma weave_cons (a c : pystr) (seps chunks : list pystr) :
  weave (a :: seps) (c :: chunks) = a ++ c ++ weave seps chunks.
Proof. reflexivity. Qed.

Lemma weave_cons_sep (b s0 : pystr) (seps chunks : list pystr) :
  weave ((b ++ s0) :: seps) chunks = b ++ weave (s0 :: seps) chunks.
Proof.
  destruct chunks as [| c chunks]; simpl; [reflexivity |].
  rewrite <- app_assoc. reflexivity.
Qed.

(** White space around a woven text goes into the outer separators. *)
Lemma weave_wrap (chunks : list pystr) :
  forall (seps : list pystr) (a b : pystr),
    List.length seps = S (List.length chunks) ->
    forallb all_space seps = true ->
    all_space a = true -> all_space b = true ->
    exists seps',
      List.length seps' = List.length seps /\
      forallb all_space seps' = true /\
      weave seps' chunks = a ++ weave seps chunks ++ b.
Proof.
  induction chunks as [| c chunks IH]; intros seps a b Hlen Hsp Ha Hb.
  - destruct seps as [| s [| s' seps]]; try discriminate.
    exists [a ++ s ++ b]. simpl in *. rewrite andb_true_r in Hsp.
    rewrite !all_space_app, Ha, Hsp, Hb. auto.
  - destruct seps as [| s seps]; [discriminate |].
    simpl in Hlen. injection Hlen as Hlen.
    cbn [forallb] in Hsp. apply andb_true_iff in Hsp. destruct Hsp as [Hs Hsp].
    destruct (@IH seps [] b Hlen Hsp eq_refl Hb) as (seps' & Hl' & Hsp' & Hw').
    exists ((a ++ s) :: seps'). cbn [List.length forallb weave].
    rewrite all_space_app, Ha, Hs, Hsp', Hl', Hw'. simpl.
    rewrite <- !app_assoc. auto.
Qed.

(** What the loop answers is what it was given plus new chunks, and the
    new chunks woven with white space give back the text. *)
Lemma split_loop_weave (fuel : nat) :
  forall (text : pystr) (max_length : Z) (chunks out : list pystr),
    split_loop fuel text max_length chunks = Some out ->
    exists new seps,
      out = chunks ++ new /\
      List.length seps = S (List.length new) /\
      forallb all_space seps = true /\
      weave seps new = text.
Proof.
  induction fuel as [| f IH]; intros text ml chunks out H.
  - simpl in H. destruct (ml <? len text)%Z; [discriminate |].
    injection H as H. subst out. destruct text as [| c text]; cbn [truthy].
    + exists [], [ [] ]. rewrite app_nil_r. auto.
    + exists [c :: text], [ []; [] ]. simpl. rewrite app_nil_r. auto.
  - cbn [split_loop] in H. destruct (ml <? len text)%Z.
    + set (i := split_index text ml) in *.
      destruct (IH _ _ _ _ H) as (new & seps & Hout & Hlen & Hsp & Hw).
      destruct (strip_split (slice_to text i)) as (a & b & Hhead & Ha & Hb).
      destruct (strip_split (slice_from text i))
        as (a' & b' & Htail & Ha' & Hb').
      destruct (@weave_wrap new seps a' b' Hlen Hsp Ha' Hb')
        as (seps' & Hl' & Hsp' & Hw').
      destruct seps' as [| s0 seps']; [rewrite Hlen in Hl'; discriminate |].
      cbn [forallb] in Hsp'. apply andb_true_iff in Hsp'.
      destruct Hsp' as [Hs0 Hsp'].
      exists (strip (slice_to text i) :: new), (a :: (b ++ s0) :: seps').
      split; [rewrite Hout, <- app_assoc; reflexivity |].
      split; [simpl in *; lia |].
      split.
      { cbn [forallb]. rewrite Ha, all_space_app, Hb, Hs0, Hsp'. reflexivity. }
      rewrite weave_cons, weave_cons_sep, Hw', Hw, <- Htail.
      rewrite <- (slice_to_from text i) at 3. rewrite Hhead at 2.
      rewrite <- !app_assoc. reflexivity.
    + injection H as H. subst out. destruct text as [| c text]; cbn [truthy].
      * exists [], [ [] ]. rewrite app_nil_r. auto.
      * exists [c :: text], [ []; [] ]. simpl. rewrite app_nil_r. auto.
Qed.

Lemma visible_app (a b : pystr) : visible (a ++ b) = visible a ++ visible b.
Proof. unfold visible. apply filter_app. Qed.

Lemma visible_space (a : pystr) : all_space a = true -> visible a = [].
Proof.
  induction a as [| c a IH]; [reflexivity |].
  simpl. intros H. apply andb_true_iff in H. destruct H as [Hc Ha].
  rewrite Hc. simpl. apply IH. exact Ha.
Qed.

Lemma visible_weave (chunks : list pystr) : forall seps : list pystr,
  List.length seps = S (List.length chunks) ->
  forallb all_space seps = true ->
  visible (weave seps chunks) = visible (List.concat chunks).
Proof.
  induction chunks as [| c chunks IH]; intros seps Hlen Hsp.
  - destruct seps as [| s [| s' seps]]; try discriminate.
    simpl in *. rewrite andb_true_r in Hsp. apply visible_space. exact Hsp.
  - destruct seps as [| s seps]; [discriminate |].
    simpl in Hlen. injection Hlen as Hlen.
    cbn [forallb] in Hsp. apply andb_true_iff in Hsp. destruct Hsp as [Hs Hsp].
    cbn [weave List.concat]. rewrite !visible_app, (visible_space s Hs).
    rewrite (IH seps Hlen Hsp). reflexivity.
Qed.

(** C8. Whatever [split_text] answers, the chunks, put one after the
    other with a run of white space before, between and after them, give
    back the text; hence the characters of the text that are not white
    space are those of the chunks, in the same order, none lost and none
    twice.  For a limit of at least one, and so for the limit of the
    transport, [split_text] does answer. *)
Theorem split_text_round_trip :
  forall (text : pystr) (max_length : Z),
    (forall fuel chunks,
        split_text fuel text max_length = Some chunks ->
        (exists seps,
            List.length seps = S (List.length chunks) /\
            forallb all_space seps = true /\
            weave seps chunks = text) /\
        visible (List.concat chunks) = visible text) /\
    ((1 <= max_length)%Z ->
     exists chunks,
       split_text (List.length text) text max_length = Some chunks) /\
    (exists chunks,
        split_text (List.length text) text MAX_TELEGRAM_LENGTH = Some chunks).
Proof.
  intros text ml.
  assert (Hends : forall m, (1 <= m)%Z ->
            exists chunks, split_text (List.length text) text m = Some chunks).
  { intros m Hm.
    destruct (split_text_total_aux text Hm) as (chunks & H).
    exists chunks. exact H. }
  split; [| split; [exact (Hends ml) |]].
  2:{ apply Hends. unfold MAX_TELEGRAM_LENGTH. lia. }
  intros fuel chunks H.
  assert (Hseps : exists seps,
             List.length seps = S (List.length chunks) /\
             forallb all_space seps = true /\
             weave seps chunks = text).
  { unfold split_text in H. destruct text as [| c text]; cbn [truthy negb] in H.
    - injection H as H. subst chunks. exists [ []; [] ]. auto.
    - destruct (split_loop_weave _ _ _ _ H)
        as (new & seps & Hout & Hlen & Hsp & Hw).
      simpl in Hout. subst chunks. exists seps. auto. }
  split; [exact Hseps |].
  destruct Hseps as (seps & Hlen & Hsp & Hw).
  rewrite <- Hw. symmetry. apply visible_weave; assumption.
Qed.

Lemma split_text_round_trip_witness :
  visible (List.concat [u "hello"; u "world"; u ". this is"; u "a test of";
                   u "things"])
  = visible (u "hello world. this is a test of things") /\
  exists chunks,
    split_text 37 (u "hello world. this is a test of things") 10 = Some chunks.
Proof.
  destruct (split_text_round_trip
              (u "hello world. this is a test of things") 10) as (H & Hex & _).
  split.
  - apply (H 37%nat). reflexivity.
  - apply Hex. lia.
Defined.

(* ================================================================== *)
(** * Part III: further properties of the code                          *)
(* ================================================================== *)

(** ** The counters of the queue *)

Lemma run_counters (ops : list op) : forall self : RequestQueue,
  total_queued (stats (exec self ops)) =
  (total_queued (stats self)
   + Z.of_nat (List.length (accepted (snd (run self ops)))))%Z /\
  total_rejected (stats (exec self ops)) =
  (total_rejected (stats self) + rejections (snd (run self ops)))%Z /\
  total_processed (stats (exec self ops)) =
  (total_processed (stats self) + finishes (snd (run self ops)))%Z.
Proof.
  induction ops as [| o ops IH]; intros self.
  - rewrite exec_nil. simpl. lia.
  - rewrite run_cons, exec_cons. cbn [snd].
    destruct (IH (fst (step self o))) as (Hq & Hr & Hp).
    rewrite Hq, Hr, Hp. clear Hq Hr Hp IH.
    destruct o as [r now | now | | ]; cbn [step].
    + destruct (Z.le_gt_cases (max_queue_size self) (waiting self))
        as [Hf | Hroom].
      * rewrite (add_to_queue_full self r now Hf).
        cbn [fst snd accepted rejections finishes stats total_queued
             total_rejected total_processed].
        simpl (_ =? _)%Z. cbv iota. lia.
      * rewrite (add_to_queue_room self r now Hroom).
        cbn [fst snd accepted rejections finishes stats total_queued
             total_rejected total_processed].
        assert (Hne : ((waiting self + 1 =? -1) = false)%Z).
        { apply Z.eqb_neq. unfold waiting. lia. }
        rewrite Hne. cbn [List.length]. lia.
    + unfold get_next_request.
      destruct (queue self) as [| request rest].
      * cbn [fst snd accepted rejections finishes]. lia.
      * destruct (queued_at request);
          cbn [fst snd accepted rejections finishes stats total_queued
               total_rejected total_processed]; lia.
    + cbn [fst snd accepted rejections finishes start_processing stats].
      lia.
    + cbn [fst snd accepted rejections finishes finish_processing stats
           total_queued total_rejected total_processed].
      lia.
Qed.

(** X1. Along every run of calls from the initial state the three
    counters say what happened: [total_queued] is the number of requests
    that entered the wait list, [total_rejected] the number of calls of
    [add_to_queue] answered [-1], and [total_processed] the number of
    calls of [finish_processing]. *)
Theorem queue_counters_account :
  forall (mc mq : Z) (ops : list op),
    let final := exec (init mc mq) ops in
    let tr := snd (run (init mc mq) ops) in
    total_queued (stats final) = Z.of_nat (List.length (accepted tr)) /\
    total_rejected (stats final) = rejections tr /\
    total_processed (stats final) = finishes tr.
Proof.
  intros mc mq ops final tr. subst final tr.
  destruct (run_counters ops (init mc mq)) as (Hq & Hr & Hp).
  simpl in Hq, Hr, Hp. auto.
Qed.

(** X2. Along every run from the initial state the requests that
    entered the wait list, in the order of their arrival, are the
    requests handed out by [get_next_request], in the order they were
    handed out, followed by the requests still waiting: none is lost,
    none is handed out twice, none overtakes another.  Hence
    [total_queued] is the number of requests handed out plus the number
    still waiting. *)
Theorem queue_conservation :
  forall (mc mq : Z) (ops : list op),
    let final := exec (init mc mq) ops in
    let tr := snd (run (init mc mq) ops) in
    accepted tr = handed_out tr ++ queue final /\
    total_queued (stats final) =
    (Z.of_nat (List.length (handed_out tr)) + waiting final)%Z.
Proof.
  intros mc mq ops final tr. subst final tr.
  destruct (run_counters ops (init mc mq)) as (Hq & _ & _).
  destruct (run_fifo ops (init mc mq)) as (_ & _ & Hf); [reflexivity |].
  simpl in Hq, Hf. split; [exact Hf |].
  rewrite Hq, Hf, length_app. unfold waiting. lia.
Qed.

(** ** The handlers and the queue *)

(** X4. [handle_default] keeps the queue within its limits, and its
    answer tells what it did: it starts at once only when a slot is free;
    it puts the request at the tail, with a position between one and
    [max_queue_size], only when no slot is free; it reports a full queue
    only when no slot is free and the wait list is full, and then the
    wait list is as before; in every other case the queue is untouched. *)
Theorem handle_default_respects_limits :
  forall (lower : pystr -> pystr) (me : option User) (mode : pystr)
         (rag_enabled : bool) (default_model : pystr)
         (q : RequestQueue) (m : Message) (now : Q),
    (active_requests q <= max_concurrent q)%Z ->
    (waiting q <= max_queue_size q)%Z ->
    let q' := fst (handle_default lower me mode rag_enabled default_model
                                  q m now) in
    let r := snd (handle_default lower me mode rag_enabled default_model
                                 q m now) in
    max_concurrent q' = max_concurrent q /\
    max_queue_size q' = max_queue_size q /\
    (active_requests q' <= max_concurrent q)%Z /\
    (waiting q' <= max_queue_size q)%Z /\
    match r with
    | Immediate model' =>
        model' = default_model /\
        (active_requests q < max_concurrent q)%Z /\
        q' = start_processing q
    | QueuedAt position =>
        (max_concurrent q <= active_requests q)%Z /\
        (1 <= position <= max_queue_size q)%Z /\
        position = waiting q' /\
        queue q' = queue q ++ [stamp (mkRequest m default_model false None) now]
    | QueueFull =>
        (max_concurrent q <= active_requests q)%Z /\
        (max_queue_size q <= waiting q)%Z /\
        queue q' = queue q /\
        active_requests q' = active_requests q
    | _ => q' = q
    end.
Proof.
  intros lower me mode rag dm q m now Hact Hwait q' r. subst q' r.
  unfold handle_default.
  destruct (text m) as [t |]; [| cbn; auto].
  destruct (negb (truthy t)); [cbn; auto |].
  destruct (startswith t (u "/")); [cbn; auto |].
  destruct (str_eqb (lower t) CONFIRM_CLEAR && rag); [cbn; auto |].
  destruct (is_group_chat m && negb (should_respond_in_group lower me mode m));
    [cbn; auto |].
  destruct (from_user m); [| cbn; auto].
  unfold can_process.
  destruct (Z.ltb_spec (active_requests q) (max_concurrent q))
    as [Hfree | Hbusy].
  - unfold waiting in *. cbn. repeat split; try reflexivity; lia.
  - destruct (Z.le_gt_cases (max_queue_size q) (waiting q)) as [Hf | Hroom].
    + rewrite (add_to_queue_full q _ now Hf). unfold waiting in *. cbn.
      repeat split; try reflexivity; lia.
    + rewrite (add_to_queue_room q _ now Hroom).
      assert (Hne : ((waiting q + 1 =? -1) = false)%Z).
      { apply Z.eqb_neq. unfold waiting. lia. }
      rewrite Hne. unfold waiting in *. cbn.
      rewrite length_app. cbn.
      repeat split; try reflexivity; lia.
Qed.

Lemma handle_default_respects_limits_witness :
  snd (handle_default ascii_lower elaya (u "smart") true (u "qwen")
                      (start_processing (init 1 10))
                      (group_message "Is it late?" [] None) 3)
  = QueuedAt 1.
Proof.
  pose proof (handle_default_respects_limits ascii_lower elaya (u "smart")
                true (u "qwen") (start_processing (init 1 10))
                (group_message "Is it late?" [] None) 3) as H.
  cbv zeta in H.
  destruct (snd (handle_default ascii_lower elaya (u "smart") true (u "qwen")
                                (start_processing (init 1 10))
                                (group_message "Is it late?" [] None) 3))
    as [| | | | model' | position |] eqn:E; try discriminate E.
  destruct H as (_ & _ & _ & _ & _ & _ & Hpos & _).
  - vm_compute. discriminate.
  - vm_compute. discriminate.
  - rewrite Hpos. reflexivity.
Defined.

(** X5. A round of [queue_processor] hands out a request only when a
    slot is free and the wait list is not empty, and it does not take
    the slot: [active_requests] is as before, so [can_process] still
    answers [True] until the task created for the request calls
    [start_processing]. *)
Theorem queue_processor_round_keeps_slot :
  forall (q : RequestQueue) (now : Q),
    let q' := fst (queue_processor_round q now) in
    active_requests q' = active_requests q /\
    can_process q' = can_process q /\
    (forall r, snd (queue_processor_round q now) = Returned (Some r) ->
               can_process q' = true /\
               queue q = r :: queue q') /\
    (can_process q = false -> q' = q).
Proof.
  intros q now q'. subst q'. unfold queue_processor_round.
  destruct (can_process q) eqn:Hcan.
  - unfold get_next_request.
    destruct (queue q) as [| request rest] eqn:Eq.
    + cbn [fst snd]. rewrite Hcan.
      split; [reflexivity | split; [reflexivity | split]];
        intros; discriminate.
    + assert (Hsame : forall st,
                 can_process (mkQueue (max_concurrent q) (max_queue_size q)
                                      (active_requests q) rest st) = true).
      { intros st. exact Hcan. }
      destruct (queued_at request); cbn [fst snd active_requests queue];
        rewrite Hsame;
        (split; [reflexivity | split; [reflexivity | split]]);
        try (intros; discriminate).
      intros r0 Hr. injection Hr as Hr. subst r0. auto.
  - cbn [fst snd]. rewrite Hcan.
    split; [reflexivity | split; [reflexivity | split]];
      [intros; discriminate | reflexivity].
Qed.

Lemma queue_processor_round_keeps_slot_witness :
  can_process
    (fst (queue_processor_round
            (exec (init 1 10) [Enqueue sample_request 2]) 5)) = true.
Proof.
  destruct (queue_processor_round_keeps_slot
              (exec (init 1 10) [Enqueue sample_request 2]) 5)
    as (_ & _ & H & _).
  apply (H (stamp sample_request 2)). reflexivity.
Defined.

(** ** Answering in groups: the other modes, and the unknown identity *)

Lemma mode_mention_only :
  str_eqb (u "mention_only") (u "all") = false /\
  str_eqb (u "mention_only") (u "mention_only") = true /\
  str_eqb (u "smart") (u "all") = false /\
  str_eqb (u "smart") (u "mention_only") = false.
Proof. repeat split; reflexivity. Qed.

Lemma direct_mention_marked (lower : pystr -> pystr) (bot_name : pystr)
      (m : Message) (t : pystr) :
  bmp_text t = true -> entities_in_range m ->
  (direct_mention lower bot_name m t <-> marked_mention lower bot_name m t).
Proof.
  intros Hb Hr. unfold direct_mention, marked_mention, names_bot, marks_bot.
  split; intros (e & Hin & Hty & Hnm); exists e;
    destruct (Hr e Hin) as [Ho Hl];
    (split; [exact Hin | split; [exact Hty |]]).
  - rewrite <- (@span_is_transport_span t e Hb Ho Hl). exact Hnm.
  - rewrite (@span_is_transport_span t e Hb Ho Hl). exact Hnm.
Qed.

Lemma untargeted_question_marked (lower : pystr -> pystr) (bot_name : pystr)
      (bot_id : Z) (m : Message) (t : pystr) :
  bmp_text t = true -> entities_in_range m ->
  (untargeted_question lower bot_name bot_id m t <->
   marked_question lower bot_name bot_id m t).
Proof.
  intros Hb Hr.
  unfold untargeted_question, marked_question, names_bot, marks_bot.
  split; intros (Hq & Hrep & Hall);
    (split; [exact Hq | split; [exact Hrep |]]);
    intros e Hin Hty; destruct (Hr e Hin) as [Ho Hl].
  - rewrite <- (@span_is_transport_span t e Hb Ho Hl). apply Hall; assumption.
  - rewrite (@span_is_transport_span t e Hb Ho Hl). apply Hall; assumption.
Qed.

(** X6. With the bot's username and id known, on a message whose text is
    not empty and has no character outside the Basic Multilingual Plane
    (so that the UTF-16 offsets of the transport are offsets in code
    points), and whose entities have offsets and lengths that are not
    negative, [should_respond_in_group] in the mode ["mention_only"]
    answers [True] exactly when the text marked by some mention entity
    is ['@' + username], case aside, or the message answers a message
    written by the bot. *)
Theorem should_respond_mention_only :
  forall (lower : pystr -> pystr) (bot_id : Z) (bot_name : pystr)
         (m : Message) (t : pystr),
    bot_name <> [] ->
    bot_id <> 0%Z ->
    text m = Some t ->
    t <> [] ->
    bmp_text t = true ->
    entities_in_range m ->
    (should_respond_in_group lower (known_bot bot_id bot_name)
                             (u "mention_only") m = true
     <->
     marked_mention lower bot_name m t \/ reply_to bot_id m).
Proof.
  intros lower bot_id bot_name m t Hname Hid Htext Hne Hb Hr.
  unfold should_respond_in_group.
  destruct mode_mention_only as (H1 & H2 & _). rewrite H1, H2.
  rewrite <- (@direct_mention_marked lower bot_name m t Hb Hr).
  rewrite <- (@is_bot_mentioned_spec lower bot_id bot_name Hname m t Htext Hne).
  rewrite <- (@is_reply_to_bot_spec bot_id bot_name Hid m).
  apply orb_true_iff.
Qed.

Lemma should_respond_mention_only_witness :
  should_respond_in_group ascii_lower elaya (u "mention_only")
    (group_message "hi @ElayaBot" [mkEntity (u "mention") 3 9] None)
  = true.
Proof.
  apply (@should_respond_mention_only ascii_lower 42 (u "elayabot")
           (group_message "hi @ElayaBot" [mkEntity (u "mention") 3 9] None)
           (u "hi @ElayaBot")).
  - discriminate.
  - discriminate.
  - reflexivity.
  - discriminate.
  - reflexivity.
  - intros e [He | []]. subst e. simpl. lia.
  - left. exists (mkEntity (u "mention") 3 9).
    split; [left; reflexivity | split; reflexivity].
Defined.

(** X7. The modes are nested: whatever the bot's identity, a message
    answered in the mode ["mention_only"] is answered in the mode
    ["smart"], and every message is answered in the mode ["all"]. *)
Theorem group_modes_nested :
  forall (lower : pystr -> pystr) (me : option User) (m : Message),
    (should_respond_in_group lower me (u "mention_only") m = true ->
     should_respond_in_group lower me (u "smart") m = true) /\
    should_respond_in_group lower me (u "all") m = true.
Proof.
  intros lower me m. split; [| reflexivity].
  unfold should_respond_in_group.
  destruct mode_mention_only as (H1 & H2 & H3 & H4).
  rewrite H1, H2, H3, H4. intros H.
  apply orb_true_iff in H. destruct H as [H | H]; rewrite H.
  - reflexivity.
  - destruct (is_bot_mentioned lower me m); reflexivity.
Qed.

Lemma group_modes_nested_witness :
  should_respond_in_group ascii_lower elaya (u "smart")
    (group_message "@elayabot hello" [mkEntity (u "mention") 0 9] None)
  = true.
Proof.
  destruct (group_modes_nested ascii_lower elaya
              (group_message "@elayabot hello"
                             [mkEntity (u "mention") 0 9] None)) as [H _].
  apply H. reflexivity.
Defined.

Lemma mentioned_loop_no_identity (lower : pystr -> pystr) (t : pystr)
      (es : list MessageEntity) :
  mentioned_loop lower None t es = false.
Proof.
  induction es as [| e es IH]; [reflexivity |].
  cbn [mentioned_loop]. destruct (str_eqb (e_type e) (u "mention")); exact IH.
Qed.

(** X8. While [bot._me] is not set, no message counts as a mention of
    the bot or as an answer to it: in the mode ["mention_only"] nothing
    is answered, and in the mode ["smart"] a message is answered exactly
    when it has text whose stripped form ends with ['?'] and it answers
    no message. *)
Theorem should_respond_without_identity :
  forall (lower : pystr -> pystr) (m : Message),
    should_respond_in_group lower None (u "mention_only") m = false /\
    (should_respond_in_group lower None (u "smart") m = true <->
     exists t, text m = Some t /\
               endswith (strip t) (u "?") = true /\
               reply_to_message m = None).
Proof.
  intros lower m.
  assert (Hm : is_bot_mentioned lower None m = false).
  { unfold is_bot_mentioned. destruct (text m) as [t |]; [| reflexivity].
    destruct (truthy t); [| reflexivity].
    destruct (entities m); [apply mentioned_loop_no_identity | reflexivity]. }
  assert (Hr : is_reply_to_bot None m = false).
  { unfold is_reply_to_bot. destruct (reply_to_message m) as [r |];
      [| reflexivity].
    destruct (from_user r); reflexivity. }
  unfold should_respond_in_group.
  destruct mode_mention_only as (H1 & H2 & H3 & H4).
  rewrite H1, H2, H3, H4, Hm, Hr. split; [reflexivity |].
  unfold is_question_in_air. rewrite Hr.
  destruct (text m) as [t |].
  2:{ split; [discriminate | intros (t & Ht & _); discriminate]. }
  destruct t as [| c t'].
  { cbn [truthy]. split; [discriminate |].
    intros (t & Ht & Hq & _). injection Ht as Ht. subst t. discriminate. }
  cbn [truthy].
  destruct (endswith (strip (c :: t')) (u "?")) eqn:Hq; cbn [negb].
  2:{ split; [discriminate |].
      intros (t & Ht & Hq' & _). injection Ht as Ht. subst t. congruence. }
  destruct (reply_to_message m) as [r |]; cbn [negb].
  { split; [discriminate | intros (t & _ & _ & Hn); discriminate]. }
  assert (Hf : match entities m with
               | Some es => foreign_loop lower None (c :: t') es
               | None => true
               end = true).
  { destruct (entities m); [| reflexivity].
    apply foreign_loop_unknown. exact I. }
  rewrite Hf. split; [| reflexivity].
  intros _. exists (c :: t'). auto.
Qed.

(** X18. With the bot's username and id known, on a message whose text
    is not empty and has no character outside the Basic Multilingual
    Plane, and whose entities have offsets and lengths that are not
    negative, [should_respond_in_group] in the mode ["smart"] answers
    [True] exactly when (1) the text marked by some mention entity is
    ['@' + username], case aside, or (2) the message answers a message
    written by the bot, or (3) the stripped text ends with ['?'], the
    message answers nothing or answers the bot, and the text marked by
    every mention entity is the bot's own handle. *)
Theorem should_respond_smart_bmp :
  forall (lower : pystr -> pystr) (bot_id : Z) (bot_name : pystr)
         (m : Message) (t : pystr),
    bot_name <> [] ->
    bot_id <> 0%Z ->
    text m = Some t ->
    t <> [] ->
    bmp_text t = true ->
    entities_in_range m ->
    (should_respond_in_group lower (known_bot bot_id bot_name)
                             (u "smart") m = true
     <->
     marked_mention lower bot_name m t \/
     reply_to bot_id m \/
     marked_question lower bot_name bot_id m t).
Proof.
  intros lower bot_id bot_name m t Hname Hid Htext Hne Hb Hr.
  rewrite <- (@direct_mention_marked lower bot_name m t Hb Hr).
  rewrite <- (@untargeted_question_marked lower bot_name bot_id m t Hb Hr).
  apply (@should_respond_smart lower bot_id bot_name m t Hname Hid Htext Hne).
Qed.

Lemma should_respond_smart_bmp_witness :
  should_respond_in_group ascii_lower elaya (u "smart")
    (group_message "hi @ElayaBot" [mkEntity (u "mention") 3 9] None)
  = true.
Proof.
  apply (@should_respond_smart_bmp ascii_lower 42 (u "elayabot")
           (group_message "hi @ElayaBot" [mkEntity (u "mention") 3 9] None)
           (u "hi @ElayaBot")).
  - discriminate.
  - discriminate.
  - reflexivity.
  - discriminate.
  - reflexivity.
  - intros e [He | []]. subst e. simpl. lia.
  - left. exists (mkEntity (u "mention") 3 9).
    split; [left; reflexivity | split; reflexivity].
Defined.

(** ** The text of a request *)

Lemma lstrip_head (s : pystr) :
  forall c rest, lstrip s = c :: rest -> is_space c = false.
Proof.
  induction s as [| x s IH]; intros c rest H; [discriminate |].
  simpl in H. destruct (is_space x) eqn:Ex.
  - eapply IH; exact H.
  - injection H as Hc _. subst x. exact Ex.
Qed.

Lemma rstrip_last (s : pystr) :
  forall c front, rstrip s = front ++ [c] -> is_space c = false.
Proof.
  intros c front H. unfold rstrip in H.
  apply (f_equal (@rev N)) in H.
  rewrite rev_involutive, rev_app_distr in H. simpl in H.
  eapply lstrip_head; exact H.
Qed.

Lemma rstrip_head (s : pystr) :
  forall c rest, rstrip s = c :: rest -> exists rest', s = c :: rest'.
Proof.
  intros c rest H. destruct (rstrip_split s) as (b & Hs & _).
  rewrite H in Hs. simpl in Hs. exists (rest ++ b). exact Hs.
Qed.

(** [strip] leaves no white space at either end. *)
Lemma strip_trimmed (s : pystr) : trimmed (strip s).
Proof.
  split.
  - intros c rest H. unfold strip in H.
    destruct (@rstrip_head _ _ _ H) as (rest' & Hl).
    eapply lstrip_head; exact Hl.
  - intros c front H. unfold strip in H. eapply rstrip_last; exact H.
Qed.

Lemma lstrip_keeps (c : N) (s : pystr) :
  is_space c = false -> lstrip (c :: s) = c :: s.
Proof. intros H. simpl. rewrite H. reflexivity. Qed.

Lemma lstrip_app_visible (y : pystr) (c : N) :
  is_space c = false -> lstrip (y ++ [c]) <> [].
Proof.
  intros H. induction y as [| x y IH]; simpl.
  - rewrite H. discriminate.
  - destruct (is_space x); [exact IH | discriminate].
Qed.

(** A string that starts with a visible character is not stripped to
    nothing. *)
Lemma strip_visible_head (c : N) (s : pystr) :
  is_space c = false -> strip (c :: s) <> [].
Proof.
  intros H. unfold strip. rewrite (@lstrip_keeps c s H).
  unfold rstrip. simpl. intros E.
  apply (f_equal (@rev N)) in E. rewrite rev_involutive in E. simpl in E.
  exact (@lstrip_app_visible (rev s) c H E).
Qed.

(** X9. For a non-empty handle the result of [remove_bot_mention] has no
    white space at either end. *)
Theorem remove_bot_mention_trimmed :
  forall (ci_char : N -> N -> bool) (text bu : pystr),
    bu <> [] ->
    trimmed (remove_bot_mention ci_char text (Some bu)).
Proof.
  intros ci_char text bu Hbu. unfold remove_bot_mention.
  apply truthy_nonempty in Hbu. rewrite Hbu. cbn [negb].
  apply strip_trimmed.
Qed.

Lemma remove_bot_mention_trimmed_witness :
  trimmed (remove_bot_mention ascii_ci (u " what is @bot ") (Some (u "bot"))).
Proof.
  apply (remove_bot_mention_trimmed ascii_ci (u " what is @bot ")
                                    (bu := u "bot")).
  discriminate.
Defined.

(** X10. A message that, stripped, is nothing but the mention of the bot
    (case aside) leaves no text: [process_message] asks for a question
    and calls no backend.  While [bot._me] is not set the mention is not
    removed: the text of the request is the stripped text of the
    message. *)
Theorem request_text_only_mention :
  forall (ci_char : N -> N -> bool) (b : User) (bu message_text : pystr),
    (username b = Some bu ->
     bu <> [] ->
     List.length (strip message_text) = List.length (u "@" ++ bu) ->
     match_here ci_char (u "@" ++ bu) (strip message_text) = true ->
     request_text ci_char (Some b) message_text = None) /\
    (strip message_text <> [] ->
     request_text ci_char None message_text = Some (strip message_text)).
Proof.
  intros ci_char b bu message_text. split.
  - intros Hu Hbu Hlen Hocc. unfold request_text, remove_bot_mention.
    rewrite Hu. apply truthy_nonempty in Hbu. rewrite Hbu. cbn [negb].
    pose proof (@sub_scan_first ci_char (u "@" ++ bu) []
                                (strip message_text) []) as H.
    rewrite app_nil_r in H. cbn [app] in H.
    rewrite H; [reflexivity | discriminate | exact Hlen | exact Hocc |].
    intros i Hi. simpl in Hi. lia.
  - intros Hne. unfold request_text.
    apply truthy_nonempty in Hne. rewrite Hne. reflexivity.
Qed.

Lemma request_text_only_mention_witness :
  request_text ascii_ci elaya (u "  @ElayaBot ") = None /\
  request_text ascii_ci None (u "  @ElayaBot ") = Some (u "@ElayaBot").
Proof.
  destruct (request_text_only_mention ascii_ci (mkUser 42 (Some (u "elayabot")))
              (u "elayabot") (u "  @ElayaBot ")) as [H1 H2].
  split.
  - apply H1; [reflexivity | discriminate | reflexivity | reflexivity].
  - apply H2. discriminate.
Defined.

(** ** More on splitting a long reply *)

Lemma slice_to_head (c : N) (r : pystr) (i : Z) :
  (1 <= i <= len (c :: r))%Z ->
  exists r', slice_to (c :: r) i = c :: r'.
Proof.
  intros H. unfold slice_to. rewrite clamp_index_inside by lia.
  destruct (Z.to_nat i) as [| k] eqn:E; [lia |].
  exists (firstn k r). reflexivity.
Qed.

Lemma split_loop_nonempty (fuel : nat) :
  forall (text : pystr) (max_length : Z) (chunks out : list pystr),
    (1 <= max_length)%Z ->
    (forall c r, text = c :: r -> is_space c = false) ->
    split_loop fuel text max_length chunks = Some out ->
    exists new, out = chunks ++ new /\ Forall (fun ch => ch <> []) new.
Proof.
  induction fuel as [| f IH]; intros text ml chunks out Hml Hhead H.
  - simpl in H. destruct (ml <? len text)%Z; [discriminate |].
    injection H as H. subst out. destruct text as [| c r]; cbn [truthy].
    + exists []. rewrite app_nil_r. auto.
    + exists [c :: r]. split; [reflexivity |].
      constructor; [discriminate | constructor].
  - cbn [split_loop] in H.
    destruct (Z.ltb_spec ml (len text)) as [Hlong | Hshort].
    + pose proof (@split_index_range text ml ltac:(lia)) as Hi.
      set (i := split_index text ml) in *.
      destruct text as [| c r]; [unfold len in Hlong; simpl in Hlong; lia |].
      destruct (@slice_to_head c r i ltac:(lia)) as (r' & Hs).
      destruct (IH _ _ _ _ Hml (proj1 (strip_trimmed _)) H)
        as (new & Hout & Hall).
      exists (strip (slice_to (c :: r) i) :: new).
      split; [rewrite Hout, <- app_assoc; reflexivity |].
      constructor; [| exact Hall].
      rewrite Hs. apply strip_visible_head. apply (Hhead c r eq_refl).
    + injection H as H. subst out. destruct text as [| c r]; cbn [truthy].
      * exists []. rewrite app_nil_r. auto.
      * exists [c :: r]. split; [reflexivity |].
        constructor; [discriminate | constructor].
Qed.

(** X11. For a limit of at least one, a text that starts with a
    character that is not white space is split into chunks none of which
    is empty. *)
Theorem split_text_no_empty_chunk :
  forall (text : pystr) (max_length : Z) (c : N) (r : pystr),
    (1 <= max_length)%Z ->
    text = c :: r ->
    is_space c = false ->
    exists chunks,
      split_text (List.length text) text max_length = Some chunks /\
      Forall (fun ch => ch <> []) chunks.
Proof.
  intros text ml c r Hml Htext Hc.
  destruct (@split_text_total_aux text ml Hml) as (chunks & Hrun).
  exists chunks. split; [exact Hrun |].
  unfold split_text in Hrun. subst text. cbn [truthy negb] in Hrun.
  assert (Hhead : forall c' r', c :: r = c' :: r' -> is_space c' = false).
  { intros c' r' E. injection E as E _. subst c'. exact Hc. }
  destruct (@split_loop_nonempty _ _ _ _ _ Hml Hhead Hrun)
    as (new & Hout & Hall).
  simpl in Hout. subst chunks. exact Hall.
Qed.

Lemma split_text_no_empty_chunk_witness :
  exists chunks,
    split_text 17 (u "hello world. this") 10 = Some chunks /\
    Forall (fun ch => ch <> []) chunks.
Proof.
  apply (split_text_no_empty_chunk (text := u "hello world. this")
           (max_length := 10) (c := 104%N) (r := u "ello world. this")).
  - lia.
  - reflexivity.
  - reflexivity.
Defined.

(** White space at the start of a long text can give an empty chunk. *)
Example split_text_leading_space :
  split_text 11 (u "     abcdef") 4 = Some [u ""; u "abcd"; u "ef"].
Proof. reflexivity. Qed.

Lemma split_loop_trimmed (fuel : nat) :
  forall (text : pystr) (max_length : Z) (chunks out : list pystr),
    trimmed text ->
    split_loop fuel text max_length chunks = Some out ->
    exists new, out = chunks ++ new /\ Forall trimmed new.
Proof.
  induction fuel as [| f IH]; intros text ml chunks out Htrim H.
  - simpl in H. destruct (ml <? len text)%Z; [discriminate |].
    injection H as H. subst out. destruct (truthy text).
    + exists [text]. split; [reflexivity |].
      constructor; [exact Htrim | constructor].
    + exists []. rewrite app_nil_r. auto.
  - cbn [split_loop] in H. destruct (ml <? len text)%Z.
    + destruct (IH _ _ _ _ (strip_trimmed _) H) as (new & Hout & Hall).
      exists (strip (slice_to text (split_index text ml)) :: new).
      split; [rewrite Hout, <- app_assoc; reflexivity |].
      constructor; [apply strip_trimmed | exact Hall].
    + injection H as H. subst out. destruct (truthy text).
      * exists [text]. split; [reflexivity |].
        constructor; [exact Htrim | constructor].
      * exists []. rewrite app_nil_r. auto.
Qed.

(** X12. A non-empty text within the limit comes back as the single chunk
    it is, white space included; a text longer than the limit (of at
    least one) is split into chunks that have no white space at either
    end. *)
Theorem split_text_short_or_trimmed :
  forall (text : pystr) (max_length : Z),
    (text <> [] -> (len text <= max_length)%Z ->
     forall fuel, split_text fuel text max_length = Some [text]) /\
    ((1 <= max_length < len text)%Z ->
     exists chunks,
       split_text (List.length text) text max_length = Some chunks /\
       Forall trimmed chunks).
Proof.
  intros text ml. split.
  - intros Hne Hlen fuel. unfold split_text.
    apply truthy_nonempty in Hne. rewrite Hne. cbn [negb].
    destruct fuel; simpl;
      destruct (Z.ltb_spec ml (len text)); try lia; rewrite Hne; reflexivity.
  - intros [Hml Hlong].
    destruct (@split_text_total_aux text ml Hml) as (chunks & Hrun).
    exists chunks. split; [exact Hrun |].
    unfold split_text in Hrun.
    destruct text as [| c r]; [unfold len in Hlong; simpl in Hlong; lia |].
    cbn [truthy negb List.length split_loop] in Hrun.
    destruct (Z.ltb_spec ml (len (c :: r))) as [_ | Hno]; [| lia].
    destruct (@split_loop_trimmed _ _ _ _ _ (strip_trimmed _) Hrun)
      as (new & Hout & Hall).
    simpl in Hout. subst chunks.
    constructor; [apply strip_trimmed | exact Hall].
Qed.

Lemma split_text_short_or_trimmed_witness :
  split_text 0 (u " hi ") 10 = Some [u " hi "] /\
  exists chunks,
    split_text 17 (u "hello world. this") 10 = Some chunks /\
    Forall trimmed chunks.
Proof.
  split.
  - destruct (split_text_short_or_trimmed (u " hi ") 10) as [H _].
    apply H; [discriminate | vm_compute; discriminate].
  - destruct (split_text_short_or_trimmed (u "hello world. this") 10) as [_ H].
    apply H. split; [lia | vm_compute; reflexivity].
Defined.

(** ** Escaping *)

Lemma replace_scan_char (o : N) (new s : pystr) :
  replace_scan [o] new 0 s =
  flat_map (fun c => if (o =? c)%N then new else [c]) s.
Proof.
  induction s as [| c s IH]; [reflexivity |].
  cbn [replace_scan startswith flat_map List.length Nat.sub].
  destruct (o =? c)%N; cbn [andb].
  - destruct s; rewrite IH; reflexivity.
  - rewrite IH. reflexivity.
Qed.

Lemma entity_of_char (c : N) :
  flat_map (fun x => if (62 =? x)%N then u "&gt;" else [x])
    (flat_map (fun x => if (60 =? x)%N then u "&lt;" else [x])
       (if (38 =? c)%N then u "&amp;" else [c]))
  = entity_of c.
Proof.
  unfold entity_of.
  destruct (N.eqb_spec c 38) as [E | E1]; [subst c; reflexivity |].
  destruct (N.eqb_spec c 60) as [E | E2]; [subst c; reflexivity |].
  destruct (N.eqb_spec c 62) as [E | E3]; [subst c; reflexivity |].
  rewrite (proj2 (N.eqb_neq 38 c)) by congruence. cbn [flat_map app].
  rewrite (proj2 (N.eqb_neq 60 c)) by congruence. cbn [flat_map app].
  rewrite (proj2 (N.eqb_neq 62 c)) by congruence. reflexivity.
Qed.

(** The three replacements, one after the other, escape each character
    once. *)
Lemma escape_html_chars (t : pystr) : escape_html t = flat_map entity_of t.
Proof.
  unfold escape_html. destruct t as [| c0 t0]; [reflexivity |].
  cbn [truthy negb]. set (t := c0 :: t0). clearbody t.
  unfold replace. cbn [u]. rewrite !replace_scan_char.
  induction t as [| c t IH]; [reflexivity |].
  cbn [flat_map]. rewrite !flat_map_app, IH.
  f_equal. apply entity_of_char.
Qed.

Lemma entity_of_clean (c x : N) :
  In x (entity_of c) -> x <> 60%N /\ x <> 62%N.
Proof.
  unfold entity_of.
  destruct (N.eqb_spec c 38); [| destruct (N.eqb_spec c 60);
                                  [| destruct (N.eqb_spec c 62)]];
    simpl; intros H;
    repeat (destruct H as [H | H]; [subst x; split; congruence |]);
    contradiction.
Qed.

Lemma entity_of_plain (c : N) :
  c <> 38%N -> c <> 60%N -> c <> 62%N -> entity_of c = [c].
Proof.
  intros H1 H2 H3. unfold entity_of.
  rewrite (proj2 (N.eqb_neq c 38) H1), (proj2 (N.eqb_neq c 60) H2),
    (proj2 (N.eqb_neq c 62) H3). reflexivity.
Qed.

(** X13. [escape_html] escapes every character exactly once (an
    ampersand written by the escaping of ['<'] or ['>'] is not escaped
    again), its result holds neither ['<'] nor ['>'], and a text without
    ['&'], ['<'] and ['>'] comes back as it is. *)
Theorem escape_html_once :
  forall t : pystr,
    escape_html t = flat_map entity_of t /\
    ~ In 60%N (escape_html t) /\
    ~ In 62%N (escape_html t) /\
    ((forall c, In c t -> c <> 38%N /\ c <> 60%N /\ c <> 62%N) ->
     escape_html t = t).
Proof.
  intros t. rewrite escape_html_chars.
  split; [reflexivity |]. split; [| split].
  - intros H. apply in_flat_map in H. destruct H as (c & _ & H).
    apply entity_of_clean in H. destruct H as [H _]. congruence.
  - intros H. apply in_flat_map in H. destruct H as (c & _ & H).
    apply entity_of_clean in H. destruct H as [_ H]. congruence.
  - induction t as [| c t IH]; intros H; [reflexivity |].
    cbn [flat_map].
    destruct (H c (or_introl eq_refl)) as (H1 & H2 & H3).
    rewrite (entity_of_plain H1 H2 H3), IH; [reflexivity |].
    intros c' Hin. apply H. right. exact Hin.
Qed.

Lemma escape_html_once_witness :
  escape_html (u "plain text") = u "plain text".
Proof.
  destruct (escape_html_once (u "plain text")) as (_ & _ & _ & H).
  apply H. intros c Hin. simpl in Hin.
  repeat (destruct Hin as [Hin | Hin];
          [subst c; repeat split; discriminate |]).
  contradiction.
Defined.

Example escape_html_markup :
  escape_html (u "a<b & c>d") = u "a&lt;b &amp; c&gt;d".
Proof. reflexivity. Qed.

Lemma unescape_entity (c : N) (rest : pystr) :
  unescape_scan 0 (entity_of c ++ rest) = c :: unescape_scan 0 rest.
Proof.
  unfold entity_of.
  destruct (N.eqb_spec c 38) as [E | E1];
    [subst c; destruct rest; reflexivity |].
  destruct (N.eqb_spec c 60) as [E | E2];
    [subst c; destruct rest; reflexivity |].
  destruct (N.eqb_spec c 62) as [E | E3];
    [subst c; destruct rest; reflexivity |].
  assert (H38 : (38 =? c)%N = false) by (apply N.eqb_neq; congruence).
  change ([c] ++ rest) with (c :: rest).
  cbn [unescape_scan].
  change (startswith (c :: rest) (u "&amp;"))
    with ((38 =? c)%N && startswith rest (u "amp;")).
  change (startswith (c :: rest) (u "&lt;"))
    with ((38 =? c)%N && startswith rest (u "lt;")).
  change (startswith (c :: rest) (u "&gt;"))
    with ((38 =? c)%N && startswith rest (u "gt;")).
  rewrite H38. reflexivity.
Qed.

(** X14. Nothing is lost by [escape_html]: reading the three entities
    back gives the text, so two texts with the same escaped form are the
    same text. *)
Theorem escape_html_round_trip :
  forall t : pystr,
    unescape_scan 0 (escape_html t) = t /\
    (forall t', escape_html t = escape_html t' -> t = t').
Proof.
  assert (Hback : forall t, unescape_scan 0 (escape_html t) = t).
  { intros t. rewrite escape_html_chars.
    induction t as [| c t IH]; [reflexivity |].
    cbn [flat_map]. rewrite unescape_entity, IH. reflexivity. }
  intros t. split; [apply Hback |].
  intros t' H. rewrite <- (Hback t), <- (Hback t'), H. reflexivity.
Qed.

Lemma escape_html_round_trip_witness :
  unescape_scan 0 (u "a&lt;b &amp;amp; c") = u "a<b &amp; c".
Proof.
  apply (proj1 (escape_html_round_trip (u "a<b &amp; c"))).
Defined.

(** ** Statistics of the knowledge base *)

Lemma str_eqb_refl (a : pystr) : str_eqb a a = true.
Proof. apply str_eqb_eq. reflexivity. Qed.

Lemma dict_get_lookup (d : list (pystr * pystr)) (key default : pystr) :
  dict_get d key default = dict_lookup d key default.
Proof.
  induction d as [| [k v] d IH]; [reflexivity |].
  simpl. rewrite IH. reflexivity.
Qed.

Section DictFacts.

Variable V : Type.

Lemma dict_lookup_store_same (d : list (pystr * V)) (key : pystr)
      (v default : V) :
  dict_lookup (dict_store d key v) key default = v.
Proof.
  induction d as [| [k w] d IH]; simpl.
  - rewrite str_eqb_refl. reflexivity.
  - destruct (str_eqb k key) eqn:E; simpl; rewrite E; [reflexivity | exact IH].
Qed.

Lemma dict_lookup_store_other (d : list (pystr * V)) (key key' : pystr)
      (v default : V) :
  key' <> key ->
  dict_lookup (dict_store d key v) key' default = dict_lookup d key' default.
Proof.
  intros Hne. induction d as [| [k w] d IH]; simpl.
  - rewrite (proj2 (str_eqb_neq key key')) by congruence. reflexivity.
  - destruct (str_eqb k key) eqn:E; simpl.
    + apply str_eqb_eq in E. subst k.
      rewrite (proj2 (str_eqb_neq key key')) by congruence. reflexivity.
    + rewrite IH. reflexivity.
Qed.

Lemma dict_store_keys (d : list (pystr * V)) (key : pystr) (v : V) :
  map fst (dict_store d key v) =
  if existsb (fun k => str_eqb k key) (map fst d) then map fst d
  else map fst d ++ [key].
Proof.
  induction d as [| [k w] d IH]; [reflexivity |].
  simpl. destruct (str_eqb k key) eqn:E; simpl; [reflexivity |].
  rewrite IH. destruct (existsb _ (map fst d)); reflexivity.
Qed.

Lemma dict_store_nodup (d : list (pystr * V)) (key : pystr) (v : V) :
  NoDup (map fst d) -> NoDup (map fst (dict_store d key v)).
Proof.
  intros H. rewrite dict_store_keys.
  destruct (existsb (fun k => str_eqb k key) (map fst d)) eqn:E; [exact H |].
  apply NoDup_app; [exact H | constructor; [intros [] | constructor] |].
  intros k Hin [Hk | []]. subst k.
  assert (Ht : existsb (fun k => str_eqb k key) (map fst d) = true).
  { apply existsb_exists. exists key. split; [exact Hin | apply str_eqb_refl]. }
  congruence.
Qed.

Lemma dict_store_length (d : list (pystr * V)) (key : pystr) (v : V) :
  (List.length (dict_store d key v) <= S (List.length d))%nat.
Proof.
  induction d as [| [k w] d IH]; simpl; [lia |].
  destruct (str_eqb k key); simpl; lia.
Qed.

End DictFacts.

Lemma count_sum_store (d : list (pystr * Z)) (key : pystr) (v : Z) :
  count_sum (dict_store d key v) =
  (count_sum d - dict_lookup d key 0%Z + v)%Z.
Proof.
  induction d as [| [k w] d IH]; simpl; [lia |].
  destruct (str_eqb k key); simpl; [lia | rewrite IH; lia].
Qed.

Lemma records_of_cons (s : pystr) (md : list (pystr * pystr))
      (ms : list (list (pystr * pystr))) :
  records_of s (md :: ms) =
  ((if str_eqb (source_of md) s then 1 else 0) + records_of s ms)%Z.
Proof.
  unfold records_of. cbn [filter].
  destruct (str_eqb (source_of md) s); cbn [List.length]; lia.
Qed.

(** The loop of [get_stats] over the metadata records. *)
Lemma tally_fold (ms : list (list (pystr * pystr))) :
  forall acc : list (pystr * Z),
    NoDup (map fst acc) ->
    let r := fold_left tally ms acc in
    NoDup (map fst r) /\
    (forall s, dict_lookup r s 0%Z
               = (dict_lookup acc s 0%Z + records_of s ms)%Z) /\
    count_sum r = (count_sum acc + Z.of_nat (List.length ms))%Z /\
    (List.length r <= List.length acc + List.length ms)%nat.
Proof.
  induction ms as [| md ms IH]; intros acc Hnd r; subst r.
  - simpl. repeat split; [exact Hnd | | lia | lia].
    intros s. unfold records_of. simpl. lia.
  - cbn [fold_left].
    assert (Hnd' : NoDup (map fst (tally acc md))).
    { unfold tally. apply dict_store_nodup. exact Hnd. }
    destruct (IH (tally acc md) Hnd') as (H1 & H2 & H3 & H4).
    split; [exact H1 |]. split; [| split].
    + intros s. rewrite H2, records_of_cons. unfold tally.
      fold (source_of md).
      destruct (str_eqb (source_of md) s) eqn:E.
      * apply str_eqb_eq in E. rewrite <- E.
        rewrite dict_lookup_store_same. lia.
      * apply str_eqb_neq in E.
        rewrite dict_lookup_store_other by congruence. lia.
    + rewrite H3. unfold tally. rewrite count_sum_store.
      cbn [List.length]. lia.
    + assert (Hl : (List.length (tally acc md) <= S (List.length acc))%nat)
        by apply dict_store_length.
      cbn [List.length]. lia.
Qed.

Lemma tally_all_dicts (ds : list (list (pystr * pystr))) :
  forall acc, tally_all acc (map Some ds) = Some (fold_left tally ds acc).
Proof.
  induction ds as [| d ds IH]; intros acc; [reflexivity |].
  simpl. apply IH.
Qed.

Lemma tally_all_none (ms : list (option (list (pystr * pystr)))) :
  In None ms -> forall acc, tally_all acc ms = None.
Proof.
  induction ms as [| md ms IH]; intros Hin acc; [contradiction |].
  destruct md as [d |]; [| reflexivity].
  simpl. apply IH. destruct Hin as [Hd | Hin]; [discriminate | exact Hin].
Qed.

(** X15. On an initialized manager with a vector store whose [get()]
    answers: when every record has a metadata dict, [get_stats] reports
    the status ["ready"], lists every source once, and gives for each
    source the number of records that name it (a dict without
    ['source_file'] counts for ["Unknown"]); the counts add up to the
    number of records and there are no more sources than records, which
    is [total_chunks] when the store answers as many ids as metadata.
    When the metadata of some record is [None], the loop raises and the
    report has the status ["error"], zero counts and no source. *)
Theorem get_stats_counts :
  forall (self : RAGManager) (store : VectorStore) (data : collection),
    is_initialized self = true ->
    vectorstore self = Some store ->
    let report := get_stats self (Fine data) in
    (forall ds : list (list (pystr * pystr)),
        metadatas data = map Some ds ->
        status report = u "ready" /\
        total_chunks report = Z.of_nat (List.length (ids data)) /\
        NoDup (map fst (sources report)) /\
        (forall s, dict_lookup (sources report) s 0%Z = records_of s ds) /\
        count_sum (sources report) = Z.of_nat (List.length ds) /\
        total_sources report = Z.of_nat (List.length (sources report)) /\
        (total_sources report <= Z.of_nat (List.length ds))%Z /\
        (List.length (ids data) = List.length (metadatas data) ->
         count_sum (sources report) = total_chunks report /\
         (total_sources report <= total_chunks report)%Z)) /\
    (In None (metadatas data) ->
     status report = u "error" /\
     total_chunks report = 0%Z /\
     total_sources report = 0%Z /\
     sources report = [] /\
     error report = Some NONE_HAS_NO_GET).
Proof.
  intros self store data Hinit Hstore report. subst report.
  unfold get_stats. rewrite Hinit, Hstore. cbn [negb]. split.
  - intros ds Hds. rewrite Hds, tally_all_dicts.
    cbn [status total_chunks sources total_sources].
    destruct (@tally_fold ds [] (NoDup_nil _)) as (H1 & H2 & H3 & H4).
    simpl in H3, H4.
    split; [reflexivity |]. split; [reflexivity |]. split; [exact H1 |].
    split; [intros s; rewrite H2; simpl; lia |].
    split; [exact H3 |]. split; [reflexivity |]. split; [lia |].
    intros Hlen. rewrite length_map in Hlen. rewrite H3, Hlen. split; lia.
  - intros Hnone. rewrite (@tally_all_none _ Hnone []).
    repeat split; reflexivity.
Qed.

Lemma get_stats_counts_witness :
  sources (get_stats (mkRAG true (Some broken_store))
             (Fine (mkCollection
                      [u "1"; u "2"; u "3"]
                      [Some [(u "source_file", u "a.txt")];
                       Some [(u "page", u "4")];
                       Some [(u "source_file", u "a.txt")]])))
  = [(u "a.txt", 2%Z); (u "Unknown", 1%Z)] /\
  count_sum (sources (get_stats (mkRAG true (Some broken_store))
             (Fine (mkCollection
                      [u "1"; u "2"; u "3"]
                      [Some [(u "source_file", u "a.txt")];
                       Some [(u "page", u "4")];
                       Some [(u "source_file", u "a.txt")]])))) = 3%Z /\
  status (get_stats (mkRAG true (Some broken_store))
            (Fine (mkCollection
                     [u "1"; u "2"]
                     [Some [(u "source_file", u "a.txt")]; None])))
  = u "error".
Proof.
  split; [reflexivity |]. split.
  - destruct (@get_stats_counts (mkRAG true (Some broken_store))
                broken_store
                (mkCollection
                   [u "1"; u "2"; u "3"]
                   [Some [(u "source_file", u "a.txt")];
                    Some [(u "page", u "4")];
                    Some [(u "source_file", u "a.txt")]])
                eq_refl eq_refl) as [H _].
    destruct (H [[(u "source_file", u "a.txt")]; [(u "page", u "4")];
                 [(u "source_file", u "a.txt")]] eq_refl)
      as (_ & _ & _ & _ & Hsum & _).
    exact Hsum.
  - destruct (@get_stats_counts (mkRAG true (Some broken_store))
                broken_store
                (mkCollection
                   [u "1"; u "2"]
                   [Some [(u "source_file", u "a.txt")]; None])
                eq_refl eq_refl) as [_ H].
    destruct (H (or_intror (or_introl eq_refl))) as (Hst & _).
    exact Hst.
Defined.

(** ** Loading a document *)

(** X16. Every chunk [load_document] answers carries the name of its
    file under ['source_file'] and the lowered extension of that name,
    one of [.pdf], [.docx] and [.txt], under ['file_type'], whatever
    metadata the loader had put there; so a result [search] formats from
    such a chunk shows the file name as its source, and that is never
    ["Unknown"], a name without an extension.  ([lower] leaves the empty
    string empty, as [str.lower] does.) *)
Theorem load_document_tags_source :
  forall (lower : pystr -> pystr) (rag_available file_exists : bool)
         (name : pystr)
         (load_and_split : pystr -> outcome (list Document))
         (chunk : Document) (score : pyfloat),
    lower [] = [] ->
    In chunk (load_document lower rag_available file_exists name
                            load_and_split) ->
    source (format_result (chunk, score)) = name /\
    source (format_result (chunk, score)) <> u "Unknown" /\
    dict_get (doc_metadata chunk) (u "file_type") (u "")
    = lower (path_suffix name) /\
    (lower (path_suffix name) = u ".pdf" \/
     lower (path_suffix name) = u ".docx" \/
     lower (path_suffix name) = u ".txt") /\
    rag_available = true /\ file_exists = true.
Proof.
  intros lower avail fexists name loader chunk score Hlower Hin.
  unfold load_document in Hin.
  destruct avail; [| contradiction]. destruct fexists; [| contradiction].
  cbn [negb] in Hin.
  destruct (str_eqb (lower (path_suffix name)) (u ".pdf")
            || str_eqb (lower (path_suffix name)) (u ".docx")
            || str_eqb (lower (path_suffix name)) (u ".txt")) eqn:Eext;
    [| contradiction].
  assert (Hname : name <> u "Unknown").
  { intros E. subst name.
    replace (path_suffix (u "Unknown")) with (@nil N) in Eext
      by reflexivity.
    rewrite Hlower in Eext. discriminate Eext. }
  destruct (loader (lower (path_suffix name))) as [chunks |];
    [| contradiction].
  apply in_map_iff in Hin. destruct Hin as (raw & Hchunk & _). subst chunk.
  unfold format_result, tag_chunk. cbn [source doc_metadata].
  rewrite !dict_get_lookup.
  assert (Hsrc : dict_lookup
                   (dict_store (dict_store (doc_metadata raw)
                                           (u "source_file") name)
                               (u "file_type") (lower (path_suffix name)))
                   (u "source_file") (u "Unknown") = name).
  { rewrite dict_lookup_store_other by discriminate.
    apply dict_lookup_store_same. }
  rewrite Hsrc.
  split; [reflexivity |]. split; [exact Hname |].
  split; [apply dict_lookup_store_same |].
  split; [| split; reflexivity].
  apply orb_true_iff in Eext. destruct Eext as [Eext | Eext].
  - apply orb_true_iff in Eext. destruct Eext as [Eext | Eext];
      apply str_eqb_eq in Eext; auto.
  - apply str_eqb_eq in Eext. auto.
Qed.

Lemma load_document_tags_source_witness :
  source (format_result
            (tag_chunk (u "Book.TXT") (u ".txt")
                       (mkDocument (u "text") [(u "source_file", u "old")]),
             Fin 1)) = u "Book.TXT".
Proof.
  apply (load_document_tags_source ascii_lower true true (u "Book.TXT")
           (fun _ => Ok [mkDocument (u "text") [(u "source_file", u "old")]])
           (tag_chunk (u "Book.TXT") (u ".txt")
                      (mkDocument (u "text") [(u "source_file", u "old")]))
           (Fin 1)).
  - reflexivity.
  - left. reflexivity.
Defined.

(** A file of another kind or without an extension, a missing file, or
    a loader that fails: no chunk. *)
Example load_document_nothing :
  load_document ascii_lower true true (u "notes.md")
                (fun _ => Ok [mkDocument (u "text") []]) = [] /\
  load_document ascii_lower true true (u "Unknown")
                (fun _ => Ok [mkDocument (u "text") []]) = [] /\
  load_document ascii_lower true true (u ".txt")
                (fun _ => Ok [mkDocument (u "text") []]) = [] /\
  load_document ascii_lower true false (u "a.pdf")
                (fun _ => Ok [mkDocument (u "text") []]) = [] /\
  load_document ascii_lower true true (u "a.pdf")
                (fun _ => Raises) = [].
Proof. repeat split; reflexivity. Qed.

Example path_suffix_examples :
  path_suffix (u "Book.TXT") = u ".TXT" /\
  path_suffix (u "archive.tar.pdf") = u ".pdf" /\
  path_suffix (u ".txt") = u "" /\
  path_suffix (u "name.") = u "".
Proof. repeat split; reflexivity. Qed.

(** ** The context handed to the backend *)

Lemma context_parts_nth (docs : list found) :
  forall (i : Z) (k : nat) (doc : found),
    nth_error docs k = Some doc ->
    nth_error (context_parts i docs) k
    = Some ((i + Z.of_nat k)%Z, source doc, content doc).
Proof.
  induction docs as [| d docs IH]; intros i k doc H.
  - destruct k; discriminate.
  - destruct k as [| k].
    + simpl in H. injection H as H. subst d. simpl.
      rewrite Z.add_0_r. reflexivity.
    + simpl in H. cbn [context_parts nth_error].
      rewrite (IH (i + 1)%Z k doc H). do 3 f_equal. lia.
Qed.

(** X17. [call_ollama_with_context] builds one part per document, in the
    order [search] ranked them, and numbers them from one: the part of
    the document at rank [k] (counted from zero) carries the number
    [k + 1] with the source and the content of that document. *)
Theorem context_parts_numbered :
  forall (context_docs : list found) (k : nat) (doc : found),
    nth_error context_docs k = Some doc ->
    nth_error (context_parts 1 context_docs) k
    = Some ((Z.of_nat k + 1)%Z, source doc, content doc) /\
    List.length (context_parts 1 context_docs) = List.length context_docs.
Proof.
  intros docs k doc H. split.
  - rewrite (context_parts_nth docs 1 k H). do 3 f_equal. lia.
  - apply context_parts_length.
Qed.

Lemma context_parts_numbered_witness :
  nth_error (context_parts 1
               (search (mkRAG true (Some (ten_passages 1))) (u "q") 5)) 2
  = Some (3%Z, u "book.txt", u "passage").
Proof.
  apply (context_parts_numbered
           (search (mkRAG true (Some (ten_passages 1))) (u "q") 5) 2
           (doc := mkFound (u "passage") (u "book.txt") (Fin (1 + (2 # 10)))
                           [(u "source_file", u "book.txt")])).
  reflexivity.
Defined.
